(** * Transcript extraction with retry, backoff and proxy rotation

    A shallow embedding of [functions/scripts/extractTranscriptsPython.py]:
    the statements the module runs when it is loaded,
    [fetch_webshare_proxies], [create_proxy_config], [create_api_instance],
    [extract_transcript] and the command line, followed by the properties
    of the result record, of the error classification and of the retry
    loop.

    Everything the script does not define itself (the environment variable,
    the HTTP client, the transcript library, the random generator, the
    clock, the character tables of the interpreter) is gathered in a
    [World] record that the functions read; what the script does to the
    outside (lines on standard error, sleeps, HTTP requests, transcript
    fetches) is recorded, in order, in a trace of [event]s. *)

From Stdlib Require Import ZArith String Ascii List Floats.
From stdpp Require Import gmap strings list fin_maps pretty.

Open Scope string_scope.
Open Scope list_scope.
Open Scope Z_scope.

#[local] Set Warnings "-register-all".

(** ** Python values *)

(** The values that occur in decoded JSON payloads and in the result
    dictionary.  A Python [int] is unbounded ([Z]), a [float] is a binary64
    number, a [dict] with string keys is a finite map. *)
Inductive value : Type :=
  | VNone
  | VBool (b : bool)
  | VInt (z : Z)
  | VFloat (f : float)
  | VStr (s : string)
  | VList (l : list value)
  | VDict (d : gmap string value).

Abbreviation dict := (gmap string value).

(** ** Strings *)

(** A Python [str] is held as the bytes of its UTF-8 form: a byte below
    128 is an ASCII character, the bytes from 128 on make up the characters
    beyond ASCII.  An ASCII needle occurs in a text exactly where its bytes
    occur in these bytes. *)
Module Str.

Definition is_ascii_char (c : ascii) : bool := (N_of_ascii c <? 128)%N.

(** [s.isascii()] *)
Fixpoint is_ascii (s : string) : bool :=
  match s with
  | EmptyString => true
  | String c rest => is_ascii_char c && is_ascii rest
  end.

(** [c.lower()] on an ASCII character. *)
Definition lower_ascii (c : ascii) : ascii :=
  let n := N_of_ascii c in
  if ((65 <=? n) && (n <=? 90))%N then ascii_of_N (n + 32) else c.

(** A text with each capital letter A to Z replaced by its small letter:
    what [s.lower()] gives when [s] is ASCII.  The method itself, on any
    text, is [lower] below; it needs the character tables of the
    interpreter. *)
Fixpoint ascii_lower (s : string) : string :=
  match s with
  | EmptyString => EmptyString
  | String c rest => String (lower_ascii c) (ascii_lower rest)
  end.

(** [needle in hay]: the substring test. *)
Fixpoint contains (needle hay : string) : bool :=
  String.prefix needle hay ||
  match hay with
  | EmptyString => false
  | String _ rest => contains needle rest
  end.

(** The property [contains] decides. *)
Definition substring_of (needle hay : string) : Prop :=
  exists before after, hay = before +:+ needle +:+ after.

(** [sep.join(parts)]. *)
Definition join (sep : string) (parts : list string) : string :=
  String.concat sep parts.

(** [list(s)]: the one-character strings of [s], as iterating a [str]
    yields them. *)
Fixpoint chars (s : string) : list string :=
  match s with
  | EmptyString => []
  | String c rest => String c EmptyString :: chars rest
  end.

(** A byte that continues a character begun by an earlier byte. *)
Definition is_continuation (c : ascii) : bool :=
  let n := N_of_ascii c in ((128 <=? n) && (n <? 192))%N.

(** [s[:n]]: the first [n] characters, each with all its bytes. *)
Fixpoint take (n : nat) (s : string) : string :=
  match s with
  | EmptyString => EmptyString
  | String c rest =>
      if is_continuation c then String c (take n rest)
      else match n with
           | O => EmptyString
           | S m => String c (take m rest)
           end
  end.

End Str.

(** ** Exceptions and the data of the external libraries *)

(** The exceptions that [fetch_webshare_proxies] can meet and that can
    leave the script: the three the interpreter raises while the payload is
    walked, and whatever a library call raises (a network failure, a body
    that is not JSON, a sleep the clock refuses), told by its message. *)
Inductive exn : Type :=
  | KeyError (key : string)
  | TypeError (on : value)
  | AttributeError (on : value) (attribute : string)
  | LibraryError (message : string).

(** A [requests.Response], as far as the script looks at it. *)
Record Response : Type := {
  status_code : Z;
  text : string;
  json : exn + value          (* [response.json()] raises or decodes *)
}.

(** The dictionary built for each proxy (lines 54-59): always these four
    keys, so a record. *)
Record ProxyCredential : Type := {
  proxy_address : value;
  port : value;
  username : value;
  password : value
}.

Record WebshareProxyConfig : Type := {
  proxy_username : value;
  proxy_password : value
}.

(** The [requests.Session] of lines 89-98, told by the headers the script
    sets on it. *)
Record Session : Type := { headers : list (string * string) }.

(** A [YouTubeTranscriptApi] object, told by the keyword arguments of the
    call that made it (lines 101-108).  The constructor is the library's:
    it may raise, and it goes on to change the session it is handed (it
    sets [Accept-Language] and, with a Webshare proxy, [Connection]).  So
    [http_client] is the session as the script passed it, not the headers
    the client ends up sending; what the client does with it is behind
    [api_fetch]. *)
Record YouTubeTranscriptApi : Type := {
  http_client : option Session;
  proxy_config : option WebshareProxyConfig
}.

(** A [FetchedTranscriptSnippet], with its attributes [text], [start] and
    [duration]; a [FetchedTranscript] is the list of its snippets. *)
Record Snippet : Type := {
  snippet_text : string;
  snippet_start : float;
  snippet_duration : float
}.

(** ** The world outside the script *)

Record World : Type := {
  (** the exception the imports of lines 12-15 die of, if any *)
  import_error : option exn;
  (** [os.environ.get('WEBSHARE_API_KEY', '')], read once when the module
      is loaded (line 18) *)
  WEBSHARE_API_KEY : string;
  (** [requests.get(url, headers=..., params=...)] raises or answers *)
  requests_get :
    string -> list (string * string) -> list (string * value) -> exn + Response;
  (** [WebshareProxyConfig(proxy_username=..., proxy_password=...)] may raise *)
  WebshareProxyConfig_init : value -> value -> exn + WebshareProxyConfig;
  (** [YouTubeTranscriptApi(...)] raises an exception [e], given by
      [str(e)], or builds the client *)
  YouTubeTranscriptApi_init : YouTubeTranscriptApi -> option string;
  (** the float [random.uniform(a, b)] returns, by the number of the draw *)
  random_uniform : Z -> value -> value -> float;
  (** the exception, given by [str(e)], that the arithmetic of
      [random.uniform(a, b)] raises on operands that are not numbers or are
      integers beyond the floats *)
  random_uniform_error : value -> value -> option string;
  (** [random.choice]: the index drawn at an attempt *)
  random_choice : Z -> nat;
  (** [time.sleep(seconds)] raises an exception [e], given by [str(e)] (a
      negative time, a time beyond the clock), or sleeps and comes back *)
  time_sleep : value -> option string;
  (** [ytt_api.fetch(video_id, languages=...)] at an attempt: raises an
      exception [e], given by [str(e)], or returns the snippets *)
  api_fetch :
    Z -> YouTubeTranscriptApi -> string -> list string -> string + list Snippet;
  (** [str(v)] as an f-string renders a decoded JSON value *)
  format_value : value -> string;
  (** [text.lower()] beyond ASCII: what stands in the lower-cased text for
      the byte at a position of [text], when that byte belongs to a
      character that is not ASCII *)
  unicode_lower : string -> nat -> string
}.

(** [text.lower()].  The method maps the characters one by one: an ASCII
    character to its lower case, whatever stands around it; a character
    beyond ASCII as the tables of the interpreter say, which may give an
    ASCII letter (the Kelvin sign gives k) and may look at the characters
    around it. *)
Fixpoint lower_from (w : World) (text : string) (position : nat)
    (rest : string) : string :=
  match rest with
  | EmptyString => EmptyString
  | String c rest' =>
      (if Str.is_ascii_char c
       then String (Str.lower_ascii c) EmptyString
       else unicode_lower w text position)
      +:+ lower_from w text (S position) rest'
  end.

Definition lower (w : World) (text : string) : string :=
  lower_from w text 0 text.

(** ** The trace *)

(** One constructor per [print(..., file=sys.stderr)] of the script, with
    the values it interpolates. *)
Inductive log_line : Type :=
  | LogKeyNotSet
  | LogNoApiKey
  | LogFetchingProxies (key_prefix : string)
  | LogWebshareApiError (status : Z) (body : string)
  | LogFetchedProxies (count : nat)
  | LogFetchProxiesFailed (e : exn)
  | LogProxyConfigFailed (e : exn)
  | LogWaitingBeforeRetry (delay : float) (retry retry_count : Z)
  | LogUsingProxy (address port : value)
  | LogRateLimit (wait_time retry retry_count : Z)
  | LogGeneralError (delay : float) (retry retry_count : Z) (error_msg : string).

(** What the script does to the outside.  [Print], [HttpGet] and [Fetch]
    stand for the call, whatever comes of it; [Sleep] stands for a sleep
    that came back: a [time.sleep] that refuses its argument raises at once
    and leaves no event.  Writing a line to standard error or to standard
    output is taken to succeed. *)
Inductive event : Type :=
  | Print (line : log_line)
  | HttpGet (url : string) (hdrs : list (string * string))
            (params : list (string * value))
  | Sleep (seconds : value)
  | Fetch (api : YouTubeTranscriptApi) (video_id : string)
          (languages : list string).

(** ** A writer and error monad

    A computation yields the events it emitted and either the exception it
    raised or its value. *)

Definition M (E A : Type) : Type := list event * (E + A).

Definition ret {E A} (a : A) : M E A := ([], inr a).

Definition raise {E A} (e : E) : M E A := ([], inl e).

Definition bind {E A B} (m : M E A) (k : A -> M E B) : M E B :=
  match m with
  | (t, inl e) => (t, inl e)
  | (t, inr a) => let '(t', r) := k a in ((t ++ t')%list, r)
  end.

Definition emit {E} (e : event) : M E unit := ([e], inr tt).

Definition lift {E A} (r : E + A) : M E A := ([], r).

(** [try: m except Exception as e: h e]; every exception of the model is
    an [Exception]. *)
Definition try_except {E E' A} (m : M E A) (h : E -> M E' A) : M E' A :=
  match m with
  | (t, inl e) => let '(t', r) := h e in ((t ++ t')%list, r)
  | (t, inr a) => (t, inr a)
  end.

(** An exception nobody catches, seen from the caller. *)
Definition uncaught {A} (m : M string A) : M exn A :=
  match m with
  | (t, inl message) => (t, inl (LibraryError message))
  | (t, inr a) => (t, inr a)
  end.

Declare Scope py_scope.
Delimit Scope py_scope with py.
Notation "x <- m ;; k" := (bind m (fun x => k))
  (at level 100, m at next level, right associativity) : py_scope.
Notation "m ;; k" := (bind m (fun _ => k))
  (at level 100, right associativity) : py_scope.
Open Scope py_scope.

(** [time.sleep(seconds)] inside a [try] that catches by message. *)
Definition sleep (w : World) (seconds : value) : M string unit :=
  match time_sleep w seconds with
  | Some message => raise message
  | None => emit (Sleep seconds)
  end.

(** A number whose arithmetic with floats cannot fail: a [bool], a [float],
    or an [int] well within the range of the floats. *)
Definition plain_number (v : value) : bool :=
  match v with
  | VBool _ | VFloat _ => true
  | VInt z => Z.log2 (Z.abs z) <? 1000
  | _ => false
  end.

(** [random.uniform(a, b)], which computes [a + (b - a) * random()]: on
    plain numbers it returns a float; on other operands the world tells
    whether the arithmetic raises. *)
Definition uniform (w : World) (draw : Z) (a b : value) : M string float :=
  if plain_number a && plain_number b then ret (random_uniform w draw a b)
  else
    match random_uniform_error w a b with
    | Some message => raise message
    | None => ret (random_uniform w draw a b)
    end.

(** ** Loading the module *)

(** Lines 18-20, run before anything else of the script once the imports
    are through. *)
Definition load_module (w : World) : list event :=
  if String.eqb (WEBSHARE_API_KEY w) "" then [Print LogKeyNotSet] else [].

(** ** fetch_webshare_proxies *)

Definition WEBSHARE_API_URL : string :=
  "https://proxy.webshare.io/api/v2/proxy/list/".

(** [v[key]] with a string key. *)
Definition subscript (v : value) (key : string) : exn + value :=
  match v with
  | VDict d =>
      match d !! key with
      | Some x => inr x
      | None => inl (KeyError key)
      end
  | _ => inl (TypeError v)
  end.

(** [for x in v]: the items the loop visits.  For a dictionary these are
    its keys; their order is immaterial here, a key being a string. *)
Definition iterate (v : value) : exn + list value :=
  match v with
  | VList l => inr l
  | VDict d => inr (VStr <$> (map_to_list d).*1)
  | VStr s => inr (VStr <$> Str.chars s)
  | _ => inl (TypeError v)
  end.

(** [data.get(key, default)]; only a dictionary has [get]. *)
Definition dict_get (data : value) (key : string) (fallback : value)
  : exn + value :=
  match data with
  | VDict d => inr (default fallback (d !! key))
  | _ => inl (AttributeError data "get")
  end.

(** The body of the [for] loop of lines 53-60, run over the items in order;
    [proxies] is the list built so far. *)
Fixpoint collect_proxies (items : list value) (proxies : list ProxyCredential)
  : exn + list ProxyCredential :=
  match items with
  | [] => inr proxies
  | proxy_data :: rest =>
      match subscript proxy_data "proxy_address" with
      | inl e => inl e
      | inr address =>
      match subscript proxy_data "port" with
      | inl e => inl e
      | inr prt =>
      match subscript proxy_data "username" with
      | inl e => inl e
      | inr user =>
      match subscript proxy_data "password" with
      | inl e => inl e
      | inr pass =>
          let proxy_config :=
            {| proxy_address := address; port := prt;
               username := user; password := pass |} in
          collect_proxies rest (proxies ++ [proxy_config])
      end end end end
  end.

(** Lines 27-63: what stands inside the [try]. *)
Definition fetch_webshare_proxies_try (w : World)
  : M exn (list ProxyCredential) :=
  if String.eqb (WEBSHARE_API_KEY w) "" then
    emit (Print LogNoApiKey) ;;
    ret []
  else
    let hdrs := [("Authorization", "Token " +:+ WEBSHARE_API_KEY w)] in
    let params := [("mode", VStr "backbone"); ("page_size", VInt 25)] in
    emit (Print (LogFetchingProxies (Str.take 5 (WEBSHARE_API_KEY w)))) ;;
    emit (HttpGet WEBSHARE_API_URL hdrs params) ;;
    response <- lift (requests_get w WEBSHARE_API_URL hdrs params) ;;
    if negb (status_code response =? 200) then
      emit (Print (LogWebshareApiError (status_code response) (text response))) ;;
      ret []
    else
      (* [response.raise_for_status()] does nothing at status 200 *)
      data <- lift (json response) ;;
      results <- lift (dict_get data "results" (VList [])) ;;
      items <- lift (iterate results) ;;
      proxies <- lift (collect_proxies items []) ;;
      emit (Print (LogFetchedProxies (length proxies))) ;;
      ret proxies.

(** Lines 24-67.  The result type still has room for an exception, so that
    "never raises" is a statement and not a typing accident. *)
Definition fetch_webshare_proxies (w : World) : M exn (list ProxyCredential) :=
  try_except (fetch_webshare_proxies_try w)
    (fun e => emit (Print (LogFetchProxiesFailed e)) ;; ret []).

(** ** create_proxy_config and create_api_instance *)

(** Lines 69-82.  [if not proxy_data] never fires on the four-key
    dictionary; the two subscripts cannot fail on it either, the constructor
    may. *)
Definition create_proxy_config {E} (w : World) (proxy_data : ProxyCredential)
  : M E (option WebshareProxyConfig) :=
  try_except
    (cfg <- lift (WebshareProxyConfig_init w (username proxy_data)
                                            (password proxy_data)) ;;
     ret (Some cfg))
    (fun e => emit (Print (LogProxyConfigFailed e)) ;; ret None).

Definition browser_headers : list (string * string) :=
  [("User-Agent", "Mozilla/5.0 (Macintosh; Intel Mac OS X 10_15_7) AppleWebKit/537.36 (KHTML, like Gecko) Chrome/120.0.0.0 Safari/537.36");
   ("Accept", "text/html,application/xhtml+xml,application/xml;q=0.9,image/webp,*/*;q=0.8");
   ("Accept-Language", "en-US,en;q=0.9");
   ("Accept-Encoding", "gzip, deflate");
   ("DNT", "1");
   ("Connection", "keep-alive");
   ("Upgrade-Insecure-Requests", "1")].

(** The call [YouTubeTranscriptApi(...)] with the given keyword arguments:
    it raises, by [str(e)], or yields the client. *)
Definition YouTubeTranscriptApi_new (w : World) (api : YouTubeTranscriptApi)
  : string + YouTubeTranscriptApi :=
  match YouTubeTranscriptApi_init w api with
  | Some message => inl message
  | None => inr api
  end.

(** Lines 84-108. *)
Definition create_api_instance (w : World)
    (proxy_cfg : option WebshareProxyConfig) (use_session : bool)
  : string + YouTubeTranscriptApi :=
  if use_session then
    let client := {| headers := browser_headers |} in
    match proxy_cfg with
    | Some cfg =>
        YouTubeTranscriptApi_new w
          {| http_client := Some client; proxy_config := Some cfg |}
    | None =>
        YouTubeTranscriptApi_new w
          {| http_client := Some client; proxy_config := None |}
    end
  else
    match proxy_cfg with
    | Some cfg =>
        YouTubeTranscriptApi_new w
          {| http_client := None; proxy_config := Some cfg |}
    | None =>
        YouTubeTranscriptApi_new w
          {| http_client := None; proxy_config := None |}
    end.

(** ** extract_transcript *)

(** The dictionary appended for a snippet (lines 141-145). *)
Definition segment_of (snippet : Snippet) : value :=
  VDict {[ "text" := VStr (snippet_text snippet);
           "start" := VFloat (snippet_start snippet);
           "duration" := VFloat (snippet_duration snippet) ]}.

(** Lines 139-145: the list grown by [append], one snippet after the other. *)
Definition transcript_segments_of (fetched_transcript : list Snippet)
  : list value :=
  fold_left (fun segments snippet => segments ++ [segment_of snippet])
            fetched_transcript [].

Definition languages : list string := ["en"; "en-US"; "en-GB"].

(** Lines 119-122: the delay before a retry.  The draw, and then the
    sleep, may raise inside the [try]: [time.sleep] refuses a negative
    delay, which a [delay_range] below zero gives. *)
Definition wait_before_retry (w : World) (retry_count : Z)
    (delay_range : value * value) (attempt : Z) : M string unit :=
  if 0 <? attempt then
    delay <- uniform w (2 * attempt) (fst delay_range) (snd delay_range) ;;
    emit (Print (LogWaitingBeforeRetry delay (attempt + 1) retry_count)) ;;
    sleep w (VFloat delay)
  else ret tt.

(** Lines 124-130: the proxy of this attempt.  The pair is the value of
    the variables [proxy_config] and [proxy_data] afterwards ([proxy_data]
    stays unbound when there is no proxy to choose from). *)
Definition select_proxy {E} (w : World)
    (available_proxies : list ProxyCredential) (attempt : Z)
  : M E (option WebshareProxyConfig * option ProxyCredential) :=
  match available_proxies with
  | [] => ret (None, None)
  | first :: _ =>
      let proxy_data :=
        nth (random_choice w attempt mod length available_proxies)%nat
            available_proxies first in
      proxy_cfg <- create_proxy_config w proxy_data ;;
      (match proxy_cfg with
       | Some _ =>
           emit (Print (LogUsingProxy (proxy_address proxy_data)
                                      (port proxy_data)))
       | None => ret tt
       end) ;;
      ret (proxy_cfg, Some proxy_data)
  end.

(** Line 157: the conditional expression for [proxy_used]. *)
Definition proxy_used_of (w : World) (proxy_cfg : option WebshareProxyConfig)
    (proxy_data : option ProxyCredential) : string :=
  match proxy_cfg, proxy_data with
  | Some _, Some data =>
      format_value w (proxy_address data) +:+ ":" +:+
      format_value w (port data)
  | _, _ => "none"
  end.

(** Lines 117-160: what stands inside the [try] of one iteration.  It
    raises, with [str(e)], when the delay, the constructor of the client or
    the fetch does, and otherwise returns the dictionary of line 151. *)
Definition attempt_try (w : World) (video_id : string) (retry_count : Z)
    (delay_range : value * value) (available_proxies : list ProxyCredential)
    (attempt : Z) : M string dict :=
  wait_before_retry w retry_count delay_range attempt ;;
  selected <- select_proxy w available_proxies attempt ;;
  let '(proxy_cfg, proxy_data) := selected in
  ytt_api <- lift (create_api_instance w proxy_cfg true) ;;
  emit (Fetch ytt_api video_id languages) ;;
  fetched_transcript <- lift (api_fetch w attempt ytt_api video_id languages) ;;
  let transcript_segments := transcript_segments_of fetched_transcript in
  let formatted_transcript :=
    Str.join " " (map snippet_text fetched_transcript) in
  ret ({[ "success" := VBool true;
          "segments" := VList transcript_segments;
          "fullText" := VStr formatted_transcript;
          "segmentCount" := VInt (Z.of_nat (length fetched_transcript));
          "attempt" := VInt (attempt + 1);
          "proxy_used" := VStr (proxy_used_of w proxy_cfg proxy_data) ]}
       : dict).

(** How one iteration of the loop ends, when no exception leaves it: with
    a [return], or by going on to the next iteration ([continue]). *)
Inductive step_result : Type :=
  | Return (result : dict)
  | Continue.

(** Lines 162-208: the [except] clause, on [error_msg = str(e)].  Nothing
    catches what it raises itself: an exception of [time.sleep] at line 171
    or 198 leaves [extract_transcript]. *)
Definition handle_error (w : World) (retry_count attempt : Z)
    (error_msg : string) : M string step_result :=
  if Str.contains "IP" error_msg
     || Str.contains "blocked" (lower w error_msg)
     || Str.contains "429" error_msg
  then
    if attempt <? retry_count - 1 then
      let wait_time := 2 ^ attempt * 30 in
      emit (Print (LogRateLimit wait_time (attempt + 2) retry_count)) ;;
      sleep w (VInt wait_time) ;;
      ret Continue
    else
      ret (Return {[ "success" := VBool false;
                     "error" := VStr ("IP blocked/rate limited after " +:+
                                      pretty retry_count +:+ " attempts: " +:+
                                      error_msg);
                     "errorType" := VStr "IP_BLOCKED";
                     "segments" := VList [];
                     "fullText" := VStr "";
                     "segmentCount" := VInt 0 ]})
  else if Str.contains "transcript" (lower w error_msg)
          || Str.contains "available" (lower w error_msg)
  then
    ret (Return {[ "success" := VBool false;
                   "error" := VStr ("No transcript available: " +:+ error_msg);
                   "errorType" := VStr "NO_TRANSCRIPT";
                   "segments" := VList [];
                   "fullText" := VStr "";
                   "segmentCount" := VInt 0 ]})
  else
    if attempt <? retry_count - 1 then
      delay <- uniform w (2 * attempt + 1) (VInt 2) (VInt 5) ;;
      emit (Print (LogGeneralError delay (attempt + 2) retry_count error_msg)) ;;
      sleep w (VFloat delay) ;;
      ret Continue
    else
      ret (Return {[ "success" := VBool false;
                     "error" := VStr ("Failed after " +:+ pretty retry_count +:+
                                      " attempts: " +:+ error_msg);
                     "errorType" := VStr "UNKNOWN";
                     "segments" := VList [];
                     "fullText" := VStr "";
                     "segmentCount" := VInt 0 ]}).

(** One iteration: the [try] and, when it raises, the [except]. *)
Definition attempt_step (w : World) (video_id : string) (retry_count : Z)
    (delay_range : value * value) (available_proxies : list ProxyCredential)
    (attempt : Z) : M string step_result :=
  try_except
    (result <- attempt_try w video_id retry_count delay_range
                           available_proxies attempt ;;
     ret (Return result))
    (handle_error w retry_count attempt).

(** Lines 116-217: the [for] loop over the attempts still to make, and the
    [return] after it. *)
Fixpoint attempt_loop (w : World) (video_id : string) (retry_count : Z)
    (delay_range : value * value) (available_proxies : list ProxyCredential)
    (attempts : list Z) : M string dict :=
  match attempts with
  | [] =>
      ret {[ "success" := VBool false;
             "error" := VStr ("All " +:+ pretty retry_count +:+
                              " attempts failed");
             "errorType" := VStr "MAX_RETRIES_EXCEEDED";
             "segments" := VList [];
             "fullText" := VStr "";
             "segmentCount" := VInt 0 ]}
  | attempt :: rest =>
      outcome <- attempt_step w video_id retry_count delay_range
                              available_proxies attempt ;;
      match outcome with
      | Return result => ret result
      | Continue =>
          attempt_loop w video_id retry_count delay_range available_proxies
                       rest
      end
  end.

(** [range(n)] *)
Definition range (n : Z) : list Z := seqZ 0 n.

(** Lines 110-217, with [retry_count] an [int] and [delay_range] a pair.
    Line 114 stands outside the [try]: an exception of
    [fetch_webshare_proxies] would leave [extract_transcript], as one of
    the [except] clause of the loop does. *)
Definition extract_transcript (w : World) (video_id : string)
    (retry_count : Z) (delay_range : value * value) : M exn dict :=
  available_proxies <- fetch_webshare_proxies w ;;
  uncaught (attempt_loop w video_id retry_count delay_range available_proxies
                         (range retry_count)).

Definition default_retry_count : Z := 3.
Definition default_delay_range : value * value := (VInt 1, VInt 3).

(** ** The command line *)

(** How the process ends: it exits with a status after printing lines on
    standard output, or dies of an exception nobody caught. *)
Inductive process_end : Type :=
  | Exited (stdout : list value) (code : Z)
  | Crashed (e : exn).

(** The dictionary of line 221. *)
Definition usage_error : dict :=
  {[ "success" := VBool false;
     "error" := VStr "Usage: python extractTranscriptsPython.py <video_id>" ]}.

(** Lines 219-226, on [sys.argv].  A line [print(json.dumps(d))] is kept as
    the document [d] it serialises; [sys.exit(1)] ends the process with
    status 1, running off the end of the script with status 0. *)
Definition main (w : World) (argv : list string) : list event * process_end :=
  if negb (length argv =? 2)%nat then
    ([], Exited [VDict usage_error] 1)
  else
    let video_id := nth 1 argv "" in
    match extract_transcript w video_id default_retry_count
                             default_delay_range with
    | (t, inr result) => (t, Exited [VDict result] 0)
    | (t, inl e) => (t, Crashed e)
    end.

(** The script run as a program: the imports, the statements of lines
    18-20, then the block of line 219. *)
Definition script (w : World) (argv : list string)
  : list event * process_end :=
  match import_error w with
  | Some e => ([], Crashed e)
  | None =>
      let '(t, ending) := main w argv in
      ((load_module w ++ t)%list, ending)
  end.

(** ** Vocabulary of the properties *)

(** The request [fetch_webshare_proxies] sends. *)
Definition proxy_list_request (w : World) : exn + Response :=
  requests_get w WEBSHARE_API_URL
    [("Authorization", "Token " +:+ WEBSHARE_API_KEY w)]
    [("mode", VStr "backbone"); ("page_size", VInt 25)].

(** An entry of [results] as the provider documents it: an object with the
    four keys. *)
Definition proxy_object (v : value) : Prop :=
  exists d,
    v = VDict d /\
    is_Some (d !! "proxy_address") /\ is_Some (d !! "port") /\
    is_Some (d !! "username") /\ is_Some (d !! "password").

(** The payload the provider documents: an object whose [results] is a list
    of proxy objects. *)
Definition well_formed_payload (body : exn + value) : Prop :=
  exists d items,
    body = inr (VDict d) /\
    d !! "results" = Some (VList items) /\
    Forall proxy_object items.

(** The three ways the proxy-list fetch goes wrong. *)
Inductive proxy_fetch_failure (w : World) : Prop :=
  | network_exception e :
      proxy_list_request w = inl e ->
      proxy_fetch_failure w
  | non_200_response response :
      proxy_list_request w = inr response ->
      status_code response <> 200 ->
      proxy_fetch_failure w
  | malformed_payload response :
      proxy_list_request w = inr response ->
      status_code response = 200 ->
      ~ well_formed_payload (json response) ->
      proxy_fetch_failure w.

(** The events that are lines on the diagnostic stream. *)
Definition is_print (e : event) : bool :=
  match e with Print _ => true | _ => false end.

Definition is_fetch (e : event) : bool :=
  match e with Fetch _ _ _ => true | _ => false end.

Definition is_sleep (e : event) : bool :=
  match e with Sleep _ => true | _ => false end.

Definition is_http_get (e : event) : bool :=
  match e with HttpGet _ _ _ => true | _ => false end.

(** The lines that announce a retry: those of lines 170 and 197. *)
Definition is_retry_line (e : event) : bool :=
  match e with
  | Print (LogRateLimit _ _ _) => true
  | Print (LogGeneralError _ _ _ _) => true
  | _ => false
  end.

(** The transcript fetches of a run, in order. *)
Definition fetches (t : list event) : list event := List.filter is_fetch t.

(** The sleeps and the HTTP requests of a run, in order. *)
Definition sleeps (t : list event) : list event := List.filter is_sleep t.

Definition http_requests (t : list event) : list event :=
  List.filter is_http_get t.

(** The number of retries a run announces.  An iteration that goes on to
    the next one prints one such line, an iteration that returns prints
    none: a run that returns has made one attempt more than it announced
    retries. *)
Definition retries (t : list event) : nat :=
  length (List.filter is_retry_line t).

(** The whole-second sleeps of a run, in order: the script sleeps an [int]
    only at line 171, every other sleep is a [float] drawn by
    [random.uniform]. *)
Definition backoff_waits (t : list event) : list Z :=
  omap (fun e => match e with Sleep (VInt s) => Some s | _ => None end) t.

(** The seconds slept over all whole-second sleeps. *)
Definition total (waits : list Z) : Z := fold_right Z.add 0 waits.

(** The proxies [extract_transcript] works with. *)
Definition available_proxies (w : World) : list ProxyCredential :=
  match snd (fetch_webshare_proxies w) with
  | inr proxies => proxies
  | inl _ => []
  end.

(** The values of [proxy_config] and [proxy_data] at an attempt. *)
Definition selected (w : World) (proxies : list ProxyCredential) (attempt : Z)
  : option WebshareProxyConfig * option ProxyCredential :=
  match snd (select_proxy (E := Empty_set) w proxies attempt) with
  | inr choice => choice
  | inl _ => (None, None)
  end.

(** What lines 124-130 emit at an attempt. *)
Definition select_events (w : World) (proxies : list ProxyCredential)
    (attempt : Z) : list event :=
  fst (select_proxy (E := Empty_set) w proxies attempt).

(** What line 133 does at an attempt: the constructor raises, or the
    client the attempt fetches with. *)
Definition api_used (w : World) (proxies : list ProxyCredential) (attempt : Z)
  : string + YouTubeTranscriptApi :=
  create_api_instance w (fst (selected w proxies attempt)) true.

(** What lines 133-136 do at an attempt that gets there: the error raised
    by the constructor of the client or by the fetch, or the snippets
    fetched. *)
Definition fetch_with (w : World) (video_id : string)
    (proxies : list ProxyCredential) (attempt : Z) : string + list Snippet :=
  match api_used w proxies attempt with
  | inl message => inl message
  | inr api => api_fetch w attempt api video_id languages
  end.

Definition fetch_outcome (w : World) (video_id : string) (attempt : Z)
  : string + list Snippet :=
  fetch_with w video_id (available_proxies w) attempt.

(** How the delay of lines 119-122 ends at an attempt. *)
Definition delay_outcome (w : World) (retry_count : Z)
    (delay_range : value * value) (attempt : Z) : string + unit :=
  snd (wait_before_retry w retry_count delay_range attempt).

(** How the [try] of an attempt ends: the message of the exception that
    leaves it, whichever statement raised it, or the dictionary returned. *)
Definition try_outcome (w : World) (video_id : string) (retry_count : Z)
    (delay_range : value * value) (attempt : Z) : string + dict :=
  snd (attempt_try w video_id retry_count delay_range (available_proxies w)
                   attempt).

(** The attempt gets as far as the fetch of line 136: neither its delay
    nor the constructor of its client raises. *)
Definition reaches_fetch (w : World) (retry_count : Z)
    (delay_range : value * value) (attempt : Z) : bool :=
  match delay_outcome w retry_count delay_range attempt,
        api_used w (available_proxies w) attempt with
  | inr _, inr _ => true
  | _, _ => false
  end.

(** The three classes of section 4.2. *)
Inductive error_class : Type := RateLimit | NoTranscript | UnknownError.

(** The condition of line 166. *)
Definition rate_limit_message (w : World) (error_msg : string) : bool :=
  Str.contains "IP" error_msg
  || Str.contains "blocked" (lower w error_msg)
  || Str.contains "429" error_msg.

(** The condition of line 183. *)
Definition no_transcript_message (w : World) (error_msg : string) : bool :=
  Str.contains "transcript" (lower w error_msg)
  || Str.contains "available" (lower w error_msg).

(** The matching rule of the [except] clause: "IP" and "429" are looked for
    in the message as it is, "blocked", "transcript" and "available" in the
    lower-cased message. *)
Definition classify (w : World) (error_msg : string) : error_class :=
  if rate_limit_message w error_msg then RateLimit
  else if no_transcript_message w error_msg then NoTranscript
  else UnknownError.

(** A substring match that ignores case on both sides. *)
Definition contains_ignoring_case (w : World) (needle hay : string) : bool :=
  Str.contains (lower w needle) (lower w hay).

(** The matching rule as the specification words it: every needle matched
    case-insensitively. *)
Definition spec_classify (w : World) (error_msg : string) : error_class :=
  if contains_ignoring_case w "IP" error_msg
     || contains_ignoring_case w "blocked" error_msg
     || contains_ignoring_case w "429" error_msg
  then RateLimit
  else if contains_ignoring_case w "transcript" error_msg
          || contains_ignoring_case w "available" error_msg
  then NoTranscript
  else UnknownError.

(** The class read off what the [except] clause did: the [errorType] it
    returned, or the line it printed before it slept. *)
Definition observed_class (outcome : M string step_result)
  : option error_class :=
  match outcome with
  | (_, inr (Return result)) =>
      match result !! "errorType" with
      | Some (VStr ty) =>
          if String.eqb ty "IP_BLOCKED" then Some RateLimit
          else if String.eqb ty "NO_TRANSCRIPT" then Some NoTranscript
          else if String.eqb ty "UNKNOWN" then Some UnknownError
          else None
      | _ => None
      end
  | (Print (LogRateLimit _ _ _) :: _, _) => Some RateLimit
  | (Print (LogGeneralError _ _ _ _) :: _, _) => Some UnknownError
  | _ => None
  end.

Definition success_fields : list string :=
  ["segments"; "fullText"; "segmentCount"; "attempt"; "proxy_used"].

Definition failure_fields : list string := ["error"; "errorType"].

Definition error_types : list string :=
  ["IP_BLOCKED"; "NO_TRANSCRIPT"; "UNKNOWN"; "MAX_RETRIES_EXCEEDED"].

(** [key in result] *)
Definition present (result : dict) (key : string) : bool :=
  match result !! key with
  | Some _ => true
  | None => false
  end.

(** Python's truth value: [None], [False], zero and the empty string, list
    and dictionary are false. *)
Definition truthy (v : value) : bool :=
  match v with
  | VNone => false
  | VBool b => b
  | VInt z => negb (z =? 0)
  | VFloat f => negb (PrimFloat.eqb f 0%float)
  | VStr s => negb (String.eqb s "")
  | VList l => match l with [] => false | _ => true end
  | VDict d => negb (bool_decide (d = ∅))
  end.

(** The key is there and holds something: [bool(result.get(key))]. *)
Definition populated (result : dict) (key : string) : bool :=
  match result !! key with
  | Some v => truthy v
  | None => false
  end.

(** The two forms of dictionary the script returns: the one of line 151 and
    the one of lines 174, 184, 201 and 210. *)
Definition success_result (fetched : list Snippet) (attempt : Z)
    (proxy_used : string) : dict :=
  {[ "success" := VBool true;
     "segments" := VList (map segment_of fetched);
     "fullText" := VStr (Str.join " " (map snippet_text fetched));
     "segmentCount" := VInt (Z.of_nat (length fetched));
     "attempt" := VInt attempt;
     "proxy_used" := VStr proxy_used ]}.

Definition failure_result (error errorType : string) : dict :=
  {[ "success" := VBool false;
     "error" := VStr error;
     "errorType" := VStr errorType;
     "segments" := VList [];
     "fullText" := VStr "";
     "segmentCount" := VInt 0 ]}.

(** The value of [proxy_used] at an attempt. *)
Definition proxy_used_at (w : World) (attempt : Z) : string :=
  let choice := selected w (available_proxies w) attempt in
  proxy_used_of w (fst choice) (snd choice).

(** The message of the error types that tell of exhausted attempts. *)
Definition exhausted_error (errorType : string) (retry_count : Z)
    (error_msg : string) : string :=
  (if String.eqb errorType "IP_BLOCKED"
   then "IP blocked/rate limited after "
   else "Failed after ")
  +:+ pretty retry_count +:+ " attempts: " +:+ error_msg.

(** What an iteration can return: the success dictionary for the snippets
    fetched at an attempt, or a failure dictionary of the three kinds the
    [except] clause builds. *)
Inductive step_return (w : World) (video_id : string)
    (proxies : list ProxyCredential) (attempt : Z) : dict -> Prop :=
  | return_success fetched :
      fetch_with w video_id proxies attempt = inr fetched ->
      step_return w video_id proxies attempt
        (success_result fetched (attempt + 1)
           (proxy_used_of w (fst (selected w proxies attempt))
                            (snd (selected w proxies attempt))))
  | return_failure error errorType :
      errorType ∈ ["IP_BLOCKED"; "NO_TRANSCRIPT"; "UNKNOWN"] ->
      error <> "" ->
      step_return w video_id proxies attempt
        (failure_result error errorType).

(** What a run can return. *)
Inductive extraction_result (w : World) (video_id : string) (retry_count : Z)
  : dict -> Prop :=
  | result_of_attempt attempt result :
      0 <= attempt < retry_count ->
      step_return w video_id (available_proxies w) attempt result ->
      extraction_result w video_id retry_count result
  | result_of_fallback :
      extraction_result w video_id retry_count
        (failure_result ("All " +:+ pretty retry_count +:+ " attempts failed")
                        "MAX_RETRIES_EXCEEDED").

(** The iterations of a run from attempt [first] on: [continued] of them go
    on to the next one, then one returns [result]; [t] is what they emit. *)
Inductive iterations (step : Z -> M string step_result)
  : Z -> nat -> list event -> dict -> Prop :=
  | iterations_return first t result :
      step first = (t, inr (Return result)) ->
      iterations step first 0 t result
  | iterations_continue first continued t t' result :
      step first = (t, inr Continue) ->
      iterations step (first + 1) continued t' result ->
      iterations step first (S continued) (t ++ t') result.

(** The dictionary a run returned. *)
Definition result_of (run : M exn dict) : dict :=
  match snd run with
  | inr result => result
  | inl _ => ∅
  end.

(** The record built from an entry of [results]: each field is the value
    under the key of the same name. *)
Definition entry_credential (item : value) (credential : ProxyCredential)
  : Prop :=
  subscript item "proxy_address" = inr (proxy_address credential) /\
  subscript item "port" = inr (port credential) /\
  subscript item "username" = inr (username credential) /\
  subscript item "password" = inr (password credential).

(** Two proxies with the same account. *)
Definition same_account (p q : ProxyCredential) : Prop :=
  username p = username q /\ password p = password q.

(** ** Worlds to run the script in *)

Module Examples.

(** [str] on the values a proxy record holds in the examples. *)
Definition format_scalar (v : value) : string :=
  match v with
  | VStr s => s
  | VInt z => pretty z
  | _ => "?"
  end.

Fixpoint float_of_positive (p : positive) : float :=
  match p with
  | xH => 1%float
  | xO q => (2 * float_of_positive q)%float
  | xI q => (2 * float_of_positive q + 1)%float
  end.

(** [float(z)], exact on the integers the examples draw between. *)
Definition float_of_Z (z : Z) : float :=
  match z with
  | Z0 => 0%float
  | Zpos p => float_of_positive p
  | Zneg p => (- float_of_positive p)%float
  end.

(** A generator that always draws the middle of the interval: 2.0 between
    1 and 3, 3.5 between 2 and 5, -2.0 between -3 and -1. *)
Definition midpoint (a b : value) : float :=
  match a, b with
  | VInt x, VInt y => ((float_of_Z x + float_of_Z y) / 2)%float
  | VFloat x, VFloat y => ((x + y) / 2)%float
  | VInt x, VFloat y => ((float_of_Z x + y) / 2)%float
  | VFloat x, VInt y => ((x + float_of_Z y) / 2)%float
  | _, _ => 0%float
  end.

Definition type_name (v : value) : string :=
  match v with
  | VNone => "NoneType"
  | VBool _ => "bool"
  | VInt _ => "int"
  | VFloat _ => "float"
  | VStr _ => "str"
  | VList _ => "list"
  | VDict _ => "dict"
  end.

Definition is_number (v : value) : bool :=
  match v with
  | VBool _ | VInt _ | VFloat _ => true
  | _ => false
  end.

Definition beyond_floats (v : value) : bool :=
  match v with
  | VInt z => 1024 <=? Z.log2 (Z.abs z)
  | _ => false
  end.

(** What CPython's [random.uniform] raises: the TypeError of [b - a] on an
    operand that is not a number, the OverflowError of the conversion of an
    integer beyond the floats. *)
Definition cpython_uniform_error (a b : value) : option string :=
  if negb (is_number a && is_number b) then
    Some ("unsupported operand type(s) for -: '" +:+ type_name b +:+
          "' and '" +:+ type_name a +:+ "'")
  else if beyond_floats a || beyond_floats b then
    Some "int too large to convert to float"
  else None.

(** What CPython's [time.sleep] raises: ValueError on a negative time,
    OverflowError on a time beyond its clock, which counts nanoseconds in
    64 bits; it sleeps otherwise. *)
Definition cpython_sleep (seconds : value) : option string :=
  match seconds with
  | VInt s =>
      if s <? 0 then Some "sleep length must be non-negative"
      else if 9223372036 <? s
      then Some "timestamp too large to convert to C _PyTime_t"
      else None
  | VFloat f =>
      if negb (PrimFloat.eqb f f)
      then Some "Invalid value NaN (not a number)"
      else if PrimFloat.ltb f 0%float
      then Some "sleep length must be non-negative"
      else if PrimFloat.ltb 9223372036%float f
      then Some "timestamp too large to convert to C _PyTime_t"
      else None
  | VBool _ => None
  | _ =>
      Some ("'" +:+ type_name seconds +:+
            "' object cannot be interpreted as an integer")
  end.

(** Characters beyond ASCII taken to have no case: each of their bytes
    stands for itself. *)
Definition caseless_beyond_ascii (text : string) (position : nat) : string :=
  match String.get position text with
  | Some c => String c EmptyString
  | None => EmptyString
  end.

Definition hello_world : list Snippet :=
  [ {| snippet_text := "Hello";
       snippet_start := 0%float; snippet_duration := 1.5%float |};
    {| snippet_text := "world";
       snippet_start := 1.5%float; snippet_duration := 0.75%float |} ].

(** A world without API key in which the transcript library does
    [fetch]. *)
Definition world (fetch : Z -> string + list Snippet) : World :=
  {| import_error := None;
     WEBSHARE_API_KEY := "";
     requests_get := fun _ _ _ => inl (LibraryError "no network");
     WebshareProxyConfig_init :=
       fun u p => inr {| proxy_username := u; proxy_password := p |};
     YouTubeTranscriptApi_init := fun _ => None;
     random_uniform := fun _ => midpoint;
     random_uniform_error := cpython_uniform_error;
     random_choice := fun _ => 0%nat;
     time_sleep := cpython_sleep;
     api_fetch := fun attempt _ _ _ => fetch attempt;
     format_value := format_scalar;
     unicode_lower := caseless_beyond_ascii |}.

(** The example of section 8 of the specification: two attempts meet
    "429 Too Many Requests", the third one fetches two segments. *)
Definition throttled_twice : World :=
  world (fun attempt =>
           if attempt <? 2 then inl "429 Too Many Requests"
           else inr hello_world).

(** The video has no transcript. *)
Definition without_transcript : World :=
  world (fun _ => inl "No transcript found for this video").

(** The library reports a blocked address; the message speaks of the
    transcript too. *)
Definition blocked_message : string :=
  "Could not retrieve a transcript: YouTube is blocking requests from your IP".

Definition always_blocked : World :=
  world (fun _ => inl blocked_message).

(** The proxy provider answers the request with the given response. *)
Definition provider (response : exn + Response) : World :=
  {| import_error := None;
     WEBSHARE_API_KEY := "0123456789abcdef";
     requests_get := fun _ _ _ => response;
     WebshareProxyConfig_init :=
       fun u p => inr {| proxy_username := u; proxy_password := p |};
     YouTubeTranscriptApi_init := fun _ => None;
     random_uniform := fun _ => midpoint;
     random_uniform_error := cpython_uniform_error;
     random_choice := fun _ => 1%nat;
     time_sleep := cpython_sleep;
     api_fetch := fun _ _ _ _ => inr hello_world;
     format_value := format_scalar;
     unicode_lower := caseless_beyond_ascii |}.

Definition server_error : World :=
  provider (inr {| status_code := 500; text := "Internal Server Error";
                   json := inl (LibraryError "Expecting value") |}).

Definition proxy_entry (address : string) (prt : Z) : value :=
  VDict {[ "proxy_address" := VStr address; "port" := VInt prt;
           "username" := VStr "user"; "password" := VStr "secret" ]}.

Definition two_proxies : World :=
  provider (inr {| status_code := 200; text := "{...}";
                   json := inr (VDict {[ "count" := VInt 2;
                                         "results" :=
                                           VList [proxy_entry "10.0.0.1" 8080;
                                                  proxy_entry "10.0.0.2" 3128]
                                      ]}) |}).

End Examples.

(** ** More worlds *)

Module MoreExamples.

(** The two records [Examples.two_proxies] offers. *)
Definition first_proxy : ProxyCredential :=
  {| proxy_address := VStr "10.0.0.1"; port := VInt 8080;
     username := VStr "user"; password := VStr "secret" |}.

Definition second_proxy : ProxyCredential :=
  {| proxy_address := VStr "10.0.0.2"; port := VInt 3128;
     username := VStr "user"; password := VStr "secret" |}.

Definition two_entries : list value :=
  [Examples.proxy_entry "10.0.0.1" 8080; Examples.proxy_entry "10.0.0.2" 3128].

Definition two_proxies_payload : dict :=
  {[ "count" := VInt 2; "results" := VList two_entries ]}.

Definition two_proxies_response : Response :=
  {| status_code := 200; text := "{...}";
     json := inr (VDict two_proxies_payload) |}.

(** The video has a transcript without any snippet. *)
Definition empty_transcript : World := Examples.world (fun _ => inr []).

(** Every fetch fails on the connection. *)
Definition connection_reset : World :=
  Examples.world (fun _ => inl "Connection reset by peer").

(** Every fetch is throttled. *)
Definition always_throttled : World :=
  Examples.world (fun _ => inl "429 Too Many Requests").

(** The first fetch is throttled, the second one learns that there is no
    transcript. *)
Definition throttled_then_missing : World :=
  Examples.world (fun attempt =>
                    if attempt <? 1 then inl "429 Too Many Requests"
                    else inl "No transcript found for this video").

(** A [delay_range] below zero. *)
Definition negative_delay_range : value * value := (VInt (-3), VInt (-1)).

(** Twenty-nine fetches fail on the connection, the thirtieth is
    throttled. *)
Definition throttled_at_thirtieth : World :=
  Examples.world (fun attempt =>
                    if attempt <? 29 then inl "Connection reset by peer"
                    else inl "429 Too Many Requests").

(** The runs the examples look at: the video "abc123", three attempts,
    the default delay. *)
Definition run_of (w : World) : M exn dict :=
  extract_transcript w "abc123" 3 default_delay_range.

End MoreExamples.

(** ** Strings: the substring test *)

Module StrFacts.
Import Str.

Lemma append_nil s : "" +:+ s = s.
Proof. reflexivity. Qed.

Lemma append_cons c s1 s2 : String c s1 +:+ s2 = String c (s1 +:+ s2).
Proof. reflexivity. Qed.

Lemma prefix_app needle hay :
  String.prefix needle hay = true <-> exists after, hay = needle +:+ after.
Proof.
  revert hay. induction needle as [|c needle IH]; intros [|c' hay]; simpl.
  - split; [intros _; by exists "" | done].
  - split; [intros _; by exists (String c' hay) | done].
  - split; [done | intros [after H]; discriminate].
  - setoid_rewrite append_cons.
    destruct (Ascii.ascii_dec c c') as [->|Hne].
    + rewrite IH. split; intros [after H]; exists after; congruence.
    + split; [done | intros [after H]; congruence].
Qed.

(** [contains] decides [substring_of]. *)
Lemma contains_substring_of needle hay :
  contains needle hay = true <-> substring_of needle hay.
Proof.
  unfold substring_of. induction hay as [|c hay IH].
  - change (contains needle "") with (String.prefix needle "" || false).
    rewrite orb_false_r, prefix_app. split.
    + intros [after H]. by exists "", after.
    + intros [[|c before] [after H]]; [by exists after | discriminate].
  - change (contains needle (String c hay))
      with (String.prefix needle (String c hay) || contains needle hay).
    rewrite orb_true_iff, prefix_app, IH. split.
    + intros [[after H] | (before & after & H)].
      * by exists "", after.
      * exists (String c before), after. by rewrite append_cons, H.
    + intros ([|c' before] & after & H).
      * left. by exists after.
      * right. exists before, after. rewrite append_cons in H. congruence.
Qed.

Lemma append_assoc s1 s2 s3 : (s1 +:+ s2) +:+ s3 = s1 +:+ (s2 +:+ s3).
Proof.
  induction s1 as [|c s1 IH]; [done |]. by rewrite !append_cons, IH.
Qed.

End StrFacts.

(** ** Strings: lower case *)

(** On ASCII text [lower] is the ASCII lower-casing. *)
Lemma lower_from_ascii w text s : forall position,
  Str.is_ascii s = true -> lower_from w text position s = Str.ascii_lower s.
Proof.
  induction s as [|c s IH]; intros position Hs; [done |].
  simpl in Hs. apply andb_true_iff in Hs as [Hc Hs].
  simpl. rewrite Hc, StrFacts.append_cons, StrFacts.append_nil. by rewrite IH.
Qed.

Lemma lower_ascii_text w s : Str.is_ascii s = true -> lower w s = Str.ascii_lower s.
Proof. apply lower_from_ascii. Qed.

Lemma lower_from_app w text s1 : forall position s2,
  lower_from w text position (s1 +:+ s2)
  = lower_from w text position s1
    +:+ lower_from w text (position + String.length s1) s2.
Proof.
  induction s1 as [|c s1 IH]; intros position s2.
  - rewrite StrFacts.append_nil. simpl. by rewrite Nat.add_0_r.
  - rewrite StrFacts.append_cons. simpl.
    rewrite IH, StrFacts.append_assoc. by rewrite Nat.add_succ_r.
Qed.

(** Lower-casing a message keeps every occurrence of a needle made of
    ASCII characters that are not capital letters. *)
Lemma contains_lower_keeps w needle hay :
  Str.is_ascii needle = true ->
  Str.ascii_lower needle = needle ->
  Str.substring_of needle hay ->
  Str.contains needle (lower w hay) = true.
Proof.
  intros Hascii Hlower (before & after & Hhay).
  apply StrFacts.contains_substring_of. unfold lower.
  rewrite Hhay at 2. rewrite !lower_from_app.
  rewrite (lower_from_ascii w hay needle _ Hascii), Hlower.
  by eexists _, _.
Qed.

(** ** The monad *)

Ltac msimpl :=
  cbn [bind emit ret raise lift try_except app fst snd].

(** ** The trace *)

Lemma fetches_app t1 t2 : fetches (t1 ++ t2) = fetches t1 ++ fetches t2.
Proof. apply List.filter_app. Qed.

Lemma sleeps_app t1 t2 : sleeps (t1 ++ t2) = sleeps t1 ++ sleeps t2.
Proof. apply List.filter_app. Qed.

Lemma http_requests_app t1 t2 :
  http_requests (t1 ++ t2) = http_requests t1 ++ http_requests t2.
Proof. apply List.filter_app. Qed.

Lemma backoff_waits_app t1 t2 :
  backoff_waits (t1 ++ t2) = backoff_waits t1 ++ backoff_waits t2.
Proof. apply omap_app. Qed.

Lemma retries_app t1 t2 : retries (t1 ++ t2) = (retries t1 + retries t2)%nat.
Proof. unfold retries. by rewrite List.filter_app, length_app. Qed.

Lemma total_app waits1 waits2 :
  total (waits1 ++ waits2) = total waits1 + total waits2.
Proof. induction waits1 as [|x waits1 IH]; simpl; lia. Qed.

Lemma printed_only t :
  Forall (fun e => is_print e = true) t ->
  fetches t = [] /\ sleeps t = [] /\ http_requests t = [] /\
  backoff_waits t = [].
Proof.
  induction 1 as [|e t He _ (IH1 & IH2 & IH3 & IH4)]; [done |].
  destruct e; try discriminate. simpl.
  by rewrite IH4.
Qed.

(** ** fetch_webshare_proxies *)

Lemma subscript_ok v key x :
  subscript v key = inr x -> exists d, v = VDict d /\ d !! key = Some x.
Proof.
  destruct v; simpl; try discriminate.
  destruct (d !! key) eqn:E; intros [= <-]. eauto.
Qed.

(** When the loop over the items completes, every item was a proxy object
    and one record per item was appended, in order. *)
Lemma collect_proxies_ok items : forall proxies result,
  collect_proxies items proxies = inr result ->
  Forall proxy_object items /\
  exists new, result = proxies ++ new /\ length new = length items.
Proof.
  induction items as [|item items IH]; intros proxies result; simpl.
  - intros [= <-]. split; [constructor |]. exists []. by rewrite app_nil_r.
  - destruct (subscript item "proxy_address") as [|a] eqn:Ea; [done |].
    destruct (subscript item "port") as [|p] eqn:Ep; [done |].
    destruct (subscript item "username") as [|u] eqn:Eu; [done |].
    destruct (subscript item "password") as [|q] eqn:Eq; [done |].
    intros H. apply IH in H as [Hall (new & -> & Hlen)].
    split.
    + constructor; [| done].
      apply subscript_ok in Ea as (d & -> & Ha).
      apply subscript_ok in Ep as (d' & [= <-] & Hp).
      apply subscript_ok in Eu as (d' & [= <-] & Hu).
      apply subscript_ok in Eq as (d' & [= <-] & Hq).
      exists d. eauto 10.
    + eexists (_ :: new). rewrite <- app_assoc. simpl. eauto.
Qed.

(** Iterating a string or the keys of a dictionary yields strings, on which
    the first subscript raises: the loop only completes on no item at all. *)
Lemma collect_proxies_strings (keys : list string) proxies result :
  collect_proxies (VStr <$> keys) proxies = inr result ->
  keys = [] /\ result = proxies.
Proof.
  destruct keys as [|k keys]; simpl; [by intros [= <-] | done].
Qed.

(** On a well-formed payload the loop completes. *)
Lemma collect_proxies_complete items : forall proxies,
  Forall proxy_object items ->
  exists result, collect_proxies items proxies = inr result.
Proof.
  induction items as [|item items IH]; intros proxies Hall; simpl; [eauto |].
  inversion Hall as [|? ? (d & -> & [a Ha] & [p Hp] & [u Hu] & [q Hq]) Hrest];
    subst.
  simpl. rewrite Ha, Hp, Hu, Hq. by apply IH.
Qed.

(** [fetch_webshare_proxies] returns in every world. *)
Lemma fetch_webshare_proxies_returns w :
  exists t proxies, fetch_webshare_proxies w = (t, inr proxies).
Proof.
  unfold fetch_webshare_proxies.
  destruct (fetch_webshare_proxies_try w) as [t [e | proxies]]; msimpl; eauto.
Qed.

Lemma fetch_webshare_proxies_available w :
  exists t, fetch_webshare_proxies w = (t, inr (available_proxies w)).
Proof.
  unfold available_proxies.
  destruct (fetch_webshare_proxies_returns w) as (t & proxies & ->). eauto.
Qed.

(** C8: when the request raises, answers with a status other than 200, or
    answers with a payload that is not the documented one,
    [fetch_webshare_proxies] ends on a line printed to the diagnostic
    stream and returns the empty list; it raises nothing. *)
Theorem fetch_webshare_proxies_failure_empty w :
  proxy_fetch_failure w ->
  exists t line, fetch_webshare_proxies w = (t ++ [Print line], inr []).
Proof.
  intros Hfail.
  unfold fetch_webshare_proxies, fetch_webshare_proxies_try.
  destruct (String.eqb (WEBSHARE_API_KEY w) "").
  { by exists [], LogNoApiKey. }
  fold (proxy_list_request w).
  destruct Hfail as [e Hreq | response Hreq Hstatus | response Hreq Hstatus Hbad];
    rewrite Hreq; msimpl.
  - eexists [_; _], _. reflexivity.
  - apply Z.eqb_neq in Hstatus. rewrite Hstatus. msimpl.
    eexists [_; _], _. reflexivity.
  - apply Z.eqb_eq in Hstatus. rewrite Hstatus. msimpl.
    destruct (json response) as [e | data] eqn:Ejson; msimpl.
    { eexists [_; _], _. reflexivity. }
    destruct data; msimpl; try (eexists [_; _], _; reflexivity).
    simpl dict_get. msimpl.
    destruct (d !! "results") as [results |] eqn:Eres; simpl default.
    2: { msimpl. eexists [_; _], _. reflexivity. }
    destruct results; msimpl; try (eexists [_; _], _; reflexivity).
    + (* a string *)
      simpl iterate. msimpl.
      destruct (collect_proxies (VStr <$> Str.chars s) []) as [e | ps] eqn:Ec;
        msimpl; [eexists [_; _], _; reflexivity |].
      apply collect_proxies_strings in Ec as [_ ->].
      eexists [_; _], _. reflexivity.
    + (* a list *)
      simpl iterate. msimpl.
      destruct (collect_proxies l []) as [e | ps] eqn:Ec;
        msimpl; [eexists [_; _], _; reflexivity |].
      apply collect_proxies_ok in Ec as [Hall _].
      exfalso. apply Hbad. by exists d, l.
    + (* a dictionary *)
      simpl iterate. msimpl.
      destruct (collect_proxies (VStr <$> (map_to_list d0).*1) [])
        as [e | ps] eqn:Ec;
        msimpl; [eexists [_; _], _; reflexivity |].
      apply collect_proxies_strings in Ec as [_ ->].
      eexists [_; _], _. reflexivity.
Qed.

(** ** More on fetch_webshare_proxies *)

Lemma collect_proxies_credentials items : forall proxies result,
  collect_proxies items proxies = inr result ->
  exists new, result = proxies ++ new /\ Forall2 entry_credential items new.
Proof.
  induction items as [|item items IH]; intros proxies result; simpl.
  - intros [= <-]. exists []. by rewrite app_nil_r.
  - destruct (subscript item "proxy_address") as [|a] eqn:Ea; [done |].
    destruct (subscript item "port") as [|p] eqn:Ep; [done |].
    destruct (subscript item "username") as [|u] eqn:Eu; [done |].
    destruct (subscript item "password") as [|q] eqn:Eq; [done |].
    intros H. apply IH in H as (new & -> & Hall).
    eexists (_ :: new). rewrite <- app_assoc. split; [done |].
    constructor; [| done]. by repeat split.
Qed.

Lemma events_bind {E A B} (P : event -> Prop) (m : M E A) (k : A -> M E B) :
  Forall P (fst m) -> (forall a, Forall P (fst (k a))) ->
  Forall P (fst (bind m k)).
Proof.
  destruct m as [t [e | a]]; simpl; [done |]. intros Ht Hk.
  specialize (Hk a). destruct (k a) as [t' r]. by apply Forall_app.
Qed.

Lemma events_try_except {E E' A} (P : event -> Prop) (m : M E A)
    (h : E -> M E' A) :
  Forall P (fst m) -> (forall e, Forall P (fst (h e))) ->
  Forall P (fst (try_except m h)).
Proof.
  destruct m as [t [e | a]]; simpl; [| done]. intros Ht Hh.
  specialize (Hh e). destruct (h e) as [t' r]. by apply Forall_app.
Qed.

Lemma try_except_emit {E E' A} (e : event) (k : unit -> M E A)
    (h : E -> M E' A) :
  fst (try_except (bind (emit e) k) h) = e :: fst (try_except (k tt) h).
Proof.
  unfold bind, emit, try_except.
  destruct (k tt) as [t [x | a]]; [| done].
  by destruct (h x).
Qed.

Ltac solve_events :=
  repeat first
    [ apply events_try_except
    | apply events_bind
    | intro
    | match goal with
      | |- context [if ?b then _ else _] => destruct b
      end
    | progress (repeat constructor) ].

(** The request goes out once, with the key in the [Authorization] header
    and the two query parameters; without a key it does not go out. *)
Lemma fetch_webshare_proxies_requests w :
  http_requests (fst (fetch_webshare_proxies w)) =
    if String.eqb (WEBSHARE_API_KEY w) "" then []
    else [HttpGet WEBSHARE_API_URL
            [("Authorization", "Token " +:+ WEBSHARE_API_KEY w)]
            [("mode", VStr "backbone"); ("page_size", VInt 25)]].
Proof.
  unfold fetch_webshare_proxies, fetch_webshare_proxies_try.
  destruct (String.eqb (WEBSHARE_API_KEY w) ""); [done |].
  rewrite !try_except_emit.
  match goal with
  | |- http_requests (_ :: ?get :: ?rest) = _ =>
      change (get :: http_requests rest = [get]);
      assert (Forall (fun e => is_print e = true) rest) as Hrest
  end.
  { solve_events. }
  by destruct (printed_only _ Hrest) as (_ & _ & -> & _).
Qed.

(** X1: on the documented payload the proxy list comes back whole: one
    record per entry of [results], in the order of the entries, each field
    holding the value under the key of its name. *)
Theorem fetch_webshare_proxies_credentials w response d items :
  WEBSHARE_API_KEY w <> "" ->
  proxy_list_request w = inr response ->
  status_code response = 200 ->
  json response = inr (VDict d) ->
  d !! "results" = Some (VList items) ->
  Forall proxy_object items ->
  exists t proxies,
    fetch_webshare_proxies w = (t, inr proxies) /\
    Forall2 entry_credential items proxies.
Proof.
  intros Hkey Hreq Hstatus Hjson Hres Hall.
  unfold fetch_webshare_proxies, fetch_webshare_proxies_try.
  apply String.eqb_neq in Hkey. rewrite Hkey.
  fold (proxy_list_request w). rewrite Hreq. msimpl.
  apply Z.eqb_eq in Hstatus. rewrite Hstatus, Hjson. msimpl.
  simpl dict_get. rewrite Hres. simpl default. simpl iterate. msimpl.
  destruct (collect_proxies_complete items [] Hall) as [proxies Hc].
  rewrite Hc. msimpl.
  apply collect_proxies_credentials in Hc as (new & -> & Hnew).
  eexists _, _. split; [reflexivity | done].
Qed.

(** X2: a proxy is never made up: when the list returned is not empty, a
    key was set, the provider answered 200 with an object whose [results]
    is a list, and the records are those of its entries, in order. *)
Theorem fetch_webshare_proxies_sound w t proxies :
  fetch_webshare_proxies w = (t, inr proxies) ->
  proxies <> [] ->
  WEBSHARE_API_KEY w <> "" /\
  exists response d items,
    proxy_list_request w = inr response /\
    status_code response = 200 /\
    json response = inr (VDict d) /\
    d !! "results" = Some (VList items) /\
    Forall2 entry_credential items proxies.
Proof.
  unfold fetch_webshare_proxies, fetch_webshare_proxies_try.
  destruct (String.eqb_spec (WEBSHARE_API_KEY w) "") as [| Hkey].
  { msimpl. by intros [= _ <-]. }
  fold (proxy_list_request w).
  destruct (proxy_list_request w) as [e | response]; msimpl.
  { by intros [= _ <-]. }
  destruct (Z.eqb_spec (status_code response) 200) as [Hstatus | _]; msimpl.
  2: { by intros [= _ <-]. }
  destruct (json response) as [e | data] eqn:Hjson; msimpl.
  { by intros [= _ <-]. }
  destruct data as [| | | | | | d]; msimpl; try by intros [= _ <-].
  simpl dict_get. msimpl.
  destruct (d !! "results") as [results |] eqn:Hres; simpl default.
  2: { msimpl. by intros [= _ <-]. }
  destruct results as [| | | | s | items | d']; simpl iterate; msimpl;
    try by intros [= _ <-].
  - destruct (collect_proxies (VStr <$> Str.chars s) []) as [e | ps] eqn:Hc;
      msimpl; [by intros [= _ <-] |].
    apply collect_proxies_strings in Hc as [_ ->]. by intros [= _ <-].
  - destruct (collect_proxies items []) as [e | ps] eqn:Hc;
      msimpl; [by intros [= _ <-] |].
    intros [= _ <-] _. split; [done |].
    apply collect_proxies_credentials in Hc as (new & -> & Hnew).
    exists response, d, items. by rewrite Hjson.
  - destruct (collect_proxies (VStr <$> (map_to_list d').*1) [])
      as [e | ps] eqn:Hc; msimpl; [by intros [= _ <-] |].
    apply collect_proxies_strings in Hc as [_ ->]. by intros [= _ <-].
Qed.

(** ** What the proxy fetch leaves in the trace *)

(** The proxy fetch neither sleeps nor fetches a transcript. *)
Lemma fetch_webshare_proxies_no_effect w :
  fetches (fst (fetch_webshare_proxies w)) = [] /\
  sleeps (fst (fetch_webshare_proxies w)) = [] /\
  backoff_waits (fst (fetch_webshare_proxies w)) = [].
Proof.
  assert (Forall (fun e => is_sleep e = false /\ is_fetch e = false)
                 (fst (fetch_webshare_proxies w))) as Hall.
  { unfold fetch_webshare_proxies, fetch_webshare_proxies_try. solve_events. }
  induction Hall as [|e t [He1 He2] _ (IH1 & IH2 & IH3)]; [done |].
  destruct e; try discriminate; simpl; by rewrite ?IH1, ?IH2, ?IH3.
Qed.

(** ** One attempt *)

Lemma append_segments fetched : forall segments,
  fold_left (fun segments snippet => segments ++ [segment_of snippet])
            fetched segments
  = segments ++ map segment_of fetched.
Proof.
  induction fetched as [|snippet fetched IH]; intros segments; simpl.
  - by rewrite app_nil_r.
  - by rewrite IH, <- app_assoc.
Qed.

(** The loop of lines 139-145 appends one dictionary per snippet, in the
    order of the snippets. *)
Lemma transcript_segments_of_map fetched :
  transcript_segments_of fetched = map segment_of fetched.
Proof. apply append_segments. Qed.

Lemma select_proxy_events {E} w proxies attempt :
  select_proxy (E := E) w proxies attempt
  = (select_events w proxies attempt, inr (selected w proxies attempt)).
Proof.
  unfold select_events, selected, select_proxy, create_proxy_config.
  destruct proxies as [|first rest]; msimpl; [done |].
  destruct (WebshareProxyConfig_init w _ _) as [e | cfg]; msimpl; done.
Qed.

(** Choosing the proxy only prints, and announces no retry. *)
Lemma select_events_print w proxies attempt :
  Forall (fun e => is_print e = true /\ is_retry_line e = false)
         (select_events w proxies attempt).
Proof.
  unfold select_events, select_proxy, create_proxy_config.
  destruct proxies as [|first rest]; msimpl; [constructor |].
  destruct (WebshareProxyConfig_init w _ _) as [e | cfg]; msimpl;
    repeat constructor.
Qed.

Lemma select_events_trace w proxies attempt :
  fetches (select_events w proxies attempt) = [] /\
  sleeps (select_events w proxies attempt) = [] /\
  http_requests (select_events w proxies attempt) = [] /\
  backoff_waits (select_events w proxies attempt) = [] /\
  retries (select_events w proxies attempt) = 0%nat.
Proof.
  pose proof (select_events_print w proxies attempt) as Hall.
  induction Hall as [|e t [He Hr] _ (IH1 & IH2 & IH3 & IH4 & IH5)]; [done |].
  destruct e as [line | | |]; try discriminate.
  split_and!; try done.
  unfold retries in *.
  change (List.filter is_retry_line (Print line :: t))
      with (if is_retry_line (Print line)
            then Print line :: List.filter is_retry_line t
            else List.filter is_retry_line t).
  by rewrite Hr.
Qed.

(** The first attempt does not wait. *)
Lemma wait_before_retry_first w retry_count delay_range attempt :
  attempt <= 0 ->
  wait_before_retry w retry_count delay_range attempt = ([], inr tt).
Proof.
  intros Hfirst. unfold wait_before_retry.
  by destruct (Z.ltb_spec 0 attempt); [lia |].
Qed.

(** The delay before a retry prints at most its line and sleeps at most
    once, the time drawn; it sleeps once when it does not raise. *)
Lemma wait_before_retry_trace w retry_count delay_range attempt :
  let t := fst (wait_before_retry w retry_count delay_range attempt) in
  fetches t = [] /\ http_requests t = [] /\ backoff_waits t = [] /\
  retries t = 0%nat /\
  length (sleeps t)
  = match delay_outcome w retry_count delay_range attempt with
    | inr _ => if 0 <? attempt then 1%nat else 0%nat
    | inl _ => 0%nat
    end.
Proof.
  unfold delay_outcome, wait_before_retry, uniform, sleep.
  destruct (0 <? attempt); [| done].
  destruct (plain_number (fst delay_range) && plain_number (snd delay_range));
    [| destruct (random_uniform_error w _ _)]; msimpl; try done;
    destruct (time_sleep w _); done.
Qed.

(** The client knows the proxy configuration it was made with. *)
Lemma create_api_instance_proxy_config w proxy_cfg use_session api :
  create_api_instance w proxy_cfg use_session = inr api ->
  proxy_config api = proxy_cfg.
Proof.
  unfold create_api_instance, YouTubeTranscriptApi_new.
  destruct use_session, proxy_cfg;
    destruct (YouTubeTranscriptApi_init w _); by intros [= <-].
Qed.

(** The [try] of an attempt, statement by statement: the delay, the choice
    of the proxy, the constructor of the client, the fetch. *)
Lemma attempt_try_cases w video_id retry_count delay_range proxies attempt :
  attempt_try w video_id retry_count delay_range proxies attempt =
    match wait_before_retry w retry_count delay_range attempt with
    | (waited, inl message) => (waited, inl message)
    | (waited, inr _) =>
        match api_used w proxies attempt with
        | inl message =>
            (waited ++ select_events w proxies attempt, inl message)
        | inr api =>
            (waited ++ select_events w proxies attempt
                    ++ [Fetch api video_id languages],
             match api_fetch w attempt api video_id languages with
             | inl message => inl message
             | inr fetched =>
                 inr (success_result fetched (attempt + 1)
                        (proxy_used_of w (fst (selected w proxies attempt))
                                         (snd (selected w proxies attempt))))
             end)
        end
    end.
Proof.
  unfold attempt_try, api_used.
  destruct (wait_before_retry w retry_count delay_range attempt)
    as [waited [message | []]]; [done |].
  rewrite (select_proxy_events (E := string) w proxies attempt).
  destruct (selected w proxies attempt) as [proxy_cfg proxy_data].
  cbn [bind fst snd].
  destruct (create_api_instance w proxy_cfg true) as [message | api];
    cbn [bind lift emit app].
  { rewrite app_nil_r. reflexivity. }
  destruct (api_fetch w attempt api video_id languages) as [message | fetched];
    cbn [bind lift ret app].
  - done.
  - unfold success_result.
    by rewrite transcript_segments_of_map.
Qed.

(** What the [try] of an attempt leaves in the trace: no request, no
    whole-second sleep, no announcement of a retry, the sleep of its delay,
    and one fetch when it gets that far. *)
Lemma attempt_try_trace w video_id retry_count delay_range proxies attempt :
  let t := fst (attempt_try w video_id retry_count delay_range proxies
                            attempt) in
  http_requests t = [] /\ backoff_waits t = [] /\ retries t = 0%nat /\
  length (sleeps t)
  = length (sleeps (fst (wait_before_retry w retry_count delay_range
                                           attempt))) /\
  fetches t
  = match delay_outcome w retry_count delay_range attempt,
          api_used w proxies attempt with
    | inr _, inr api => [Fetch api video_id languages]
    | _, _ => []
    end.
Proof.
  intros t. subst t. rewrite attempt_try_cases. unfold delay_outcome.
  destruct (wait_before_retry_trace w retry_count delay_range attempt)
    as (Hf & Hr & Hb & Hn & _).
  destruct (select_events_trace w proxies attempt)
    as (Hf' & Hs' & Hr' & Hb' & Hn').
  destruct (wait_before_retry w retry_count delay_range attempt)
    as [waited [message | []]]; simpl in *; [done |].
  destruct (api_used w proxies attempt) as [message | api]; simpl.
  - rewrite http_requests_app, backoff_waits_app, retries_app, sleeps_app,
      fetches_app, Hf, Hr, Hb, Hn, Hf', Hs', Hr', Hb', Hn'.
    by rewrite !app_nil_r.
  - rewrite !http_requests_app, !backoff_waits_app, !retries_app,
      !sleeps_app, !fetches_app, Hf, Hr, Hb, Hn, Hf', Hs', Hr', Hb', Hn'.
    by rewrite !app_nil_r.
Qed.

(** A [try] that returns went through its delay, built its client and
    fetched; the fetch closes its trace. *)
Lemma attempt_try_returns w video_id retry_count delay_range proxies attempt
    result :
  snd (attempt_try w video_id retry_count delay_range proxies attempt)
    = inr result ->
  exists before api fetched,
    delay_outcome w retry_count delay_range attempt = inr tt /\
    api_used w proxies attempt = inr api /\
    api_fetch w attempt api video_id languages = inr fetched /\
    fst (attempt_try w video_id retry_count delay_range proxies attempt)
      = before ++ [Fetch api video_id languages] /\
    result = success_result fetched (attempt + 1)
               (proxy_used_of w (fst (selected w proxies attempt))
                                (snd (selected w proxies attempt))).
Proof.
  rewrite attempt_try_cases. unfold delay_outcome.
  destruct (wait_before_retry w retry_count delay_range attempt)
    as [waited [message | []]]; [done |].
  destruct (api_used w proxies attempt) as [message | api]; [done |].
  destruct (api_fetch w attempt api video_id languages)
    as [message | fetched] eqn:Hfetch; [done |].
  simpl. intros [= <-].
  exists (waited ++ select_events w proxies attempt), api, fetched.
  by rewrite <- app_assoc.
Qed.

(** A [try] whose fetch raises leaves the trace on that fetch. *)
Lemma attempt_try_fetch_raises w video_id retry_count delay_range proxies
    attempt api error_msg :
  delay_outcome w retry_count delay_range attempt = inr tt ->
  api_used w proxies attempt = inr api ->
  api_fetch w attempt api video_id languages = inl error_msg ->
  exists before,
    fetches before = [] /\
    attempt_try w video_id retry_count delay_range proxies attempt
      = (before ++ [Fetch api video_id languages], inl error_msg).
Proof.
  intros Hdelay Hapi Hfetch. rewrite attempt_try_cases.
  destruct (wait_before_retry_trace w retry_count delay_range attempt)
    as (Hf & _).
  destruct (select_events_trace w proxies attempt) as (Hf' & _).
  unfold delay_outcome in Hdelay.
  destruct (wait_before_retry w retry_count delay_range attempt)
    as [waited [message | []]]; simpl in *; [done |].
  rewrite Hapi, Hfetch.
  exists (waited ++ select_events w proxies attempt).
  rewrite fetches_app, Hf, Hf'. by rewrite <- app_assoc.
Qed.

(** ** The except clause *)

(** What the [except] clause does, case by case. *)
Lemma handle_error_cases w retry_count attempt error_msg :
  handle_error w retry_count attempt error_msg =
    match classify w error_msg with
    | RateLimit =>
        if attempt <? retry_count - 1 then
          match time_sleep w (VInt (2 ^ attempt * 30)) with
          | Some message =>
              ([Print (LogRateLimit (2 ^ attempt * 30) (attempt + 2)
                                    retry_count)],
               inl message)
          | None =>
              ([Print (LogRateLimit (2 ^ attempt * 30) (attempt + 2)
                                    retry_count);
                Sleep (VInt (2 ^ attempt * 30))],
               inr Continue)
          end
        else
          ([], inr (Return (failure_result
                              (exhausted_error "IP_BLOCKED" retry_count
                                               error_msg)
                              "IP_BLOCKED")))
    | NoTranscript =>
        ([], inr (Return (failure_result
                            ("No transcript available: " +:+ error_msg)
                            "NO_TRANSCRIPT")))
    | UnknownError =>
        if attempt <? retry_count - 1 then
          match time_sleep w (VFloat (random_uniform w (2 * attempt + 1)
                                                     (VInt 2) (VInt 5))) with
          | Some message =>
              ([Print (LogGeneralError
                         (random_uniform w (2 * attempt + 1) (VInt 2) (VInt 5))
                         (attempt + 2) retry_count error_msg)],
               inl message)
          | None =>
              ([Print (LogGeneralError
                         (random_uniform w (2 * attempt + 1) (VInt 2) (VInt 5))
                         (attempt + 2) retry_count error_msg);
                Sleep (VFloat (random_uniform w (2 * attempt + 1)
                                              (VInt 2) (VInt 5)))],
               inr Continue)
          end
        else
          ([], inr (Return (failure_result
                              (exhausted_error "UNKNOWN" retry_count error_msg)
                              "UNKNOWN")))
    end.
Proof.
  unfold handle_error, classify, sleep.
  fold (rate_limit_message w error_msg).
  fold (no_transcript_message w error_msg).
  destruct (rate_limit_message w error_msg);
    [| destruct (no_transcript_message w error_msg)];
    try destruct (attempt <? retry_count - 1); try reflexivity.
  - by destruct (time_sleep w _).
  - change (uniform w (2 * attempt + 1) (VInt 2) (VInt 5))
      with (ret (E := string)
              (random_uniform w (2 * attempt + 1) (VInt 2) (VInt 5))).
    cbn [bind ret].
    by destruct (time_sleep w _).
Qed.

(** ** One iteration *)

Lemma attempt_step_cases w video_id retry_count delay_range proxies attempt :
  attempt_step w video_id retry_count delay_range proxies attempt =
    match attempt_try w video_id retry_count delay_range proxies attempt with
    | (t, inr result) => (t, inr (Return result))
    | (t, inl error_msg) =>
        (t ++ fst (handle_error w retry_count attempt error_msg),
         snd (handle_error w retry_count attempt error_msg))
    end.
Proof.
  unfold attempt_step.
  destruct (attempt_try w video_id retry_count delay_range proxies attempt)
    as [t [error_msg | result]]; cbn [bind try_except ret].
  - by destruct (handle_error w retry_count attempt error_msg).
  - by rewrite app_nil_r.
Qed.

(** An iteration that goes on: its [try] raised, the error is not of the
    no-transcript class, attempts remain, and the [except] clause printed
    the line that announces the retry and slept once. *)
Lemma attempt_step_continue w video_id retry_count delay_range proxies attempt
    t :
  attempt_step w video_id retry_count delay_range proxies attempt
    = (t, inr Continue) ->
  exists error_msg line seconds,
    snd (attempt_try w video_id retry_count delay_range proxies attempt)
      = inl error_msg /\
    attempt < retry_count - 1 /\
    t = fst (attempt_try w video_id retry_count delay_range proxies attempt)
        ++ [Print line; Sleep seconds] /\
    is_retry_line (Print line) = true /\
    ((classify w error_msg = RateLimit /\ seconds = VInt (2 ^ attempt * 30)) \/
     (classify w error_msg = UnknownError /\
      exists delay, seconds = VFloat delay)).
Proof.
  rewrite attempt_step_cases.
  destruct (attempt_try w video_id retry_count delay_range proxies attempt)
    as [t0 [msg | result]]; [| done].
  rewrite handle_error_cases.
  destruct (classify w msg) eqn:Hclass; [| done |];
    destruct (Z.ltb_spec attempt (retry_count - 1)); try done;
    destruct (time_sleep w _); try done;
    intros [= <-]; eexists msg, _, _;
    (split; [done |]); (split; [done |]); (split; [reflexivity |]);
    (split; [done |]); [left | right]; eauto.
Qed.

(** An iteration that returns emits nothing after its [try], and returns
    the success dictionary of the [try] or the failure dictionary of its
    error; a retryable error makes it return only at the last attempt. *)
Lemma attempt_step_return w video_id retry_count delay_range proxies attempt
    t result :
  attempt_step w video_id retry_count delay_range proxies attempt
    = (t, inr (Return result)) ->
  t = fst (attempt_try w video_id retry_count delay_range proxies attempt) /\
  (snd (attempt_try w video_id retry_count delay_range proxies attempt)
     = inr result \/
   (exists error_msg,
      snd (attempt_try w video_id retry_count delay_range proxies attempt)
        = inl error_msg /\
      match classify w error_msg with
      | RateLimit =>
          retry_count - 1 <= attempt /\
          result = failure_result
                     (exhausted_error "IP_BLOCKED" retry_count error_msg)
                     "IP_BLOCKED"
      | NoTranscript =>
          result = failure_result
                     ("No transcript available: " +:+ error_msg)
                     "NO_TRANSCRIPT"
      | UnknownError =>
          retry_count - 1 <= attempt /\
          result = failure_result
                     (exhausted_error "UNKNOWN" retry_count error_msg)
                     "UNKNOWN"
      end)).
Proof.
  rewrite attempt_step_cases.
  destruct (attempt_try w video_id retry_count delay_range proxies attempt)
    as [t0 [msg | result0]].
  - rewrite handle_error_cases.
    destruct (classify w msg) eqn:Hclass;
      try destruct (Z.ltb_spec attempt (retry_count - 1));
      try destruct (time_sleep w _); try done;
      intros [= <- <-]; rewrite app_nil_r; (split; [done |]);
      right; exists msg; rewrite Hclass; auto.
  - intros [= <- <-]. split; [done |]. by left.
Qed.

(** An exception leaves an iteration only from the sleep of the [except]
    clause, before a retry. *)
Lemma attempt_step_raise w video_id retry_count delay_range proxies attempt
    t message :
  attempt_step w video_id retry_count delay_range proxies attempt
    = (t, inl message) ->
  exists error_msg seconds,
    snd (attempt_try w video_id retry_count delay_range proxies attempt)
      = inl error_msg /\
    attempt < retry_count - 1 /\
    classify w error_msg <> NoTranscript /\
    time_sleep w seconds = Some message /\
    (classify w error_msg = RateLimit -> seconds = VInt (2 ^ attempt * 30)).
Proof.
  rewrite attempt_step_cases.
  destruct (attempt_try w video_id retry_count delay_range proxies attempt)
    as [t0 [msg | result0]]; [| done].
  rewrite handle_error_cases.
  destruct (classify w msg) eqn:Hclass; [| done |];
    destruct (Z.ltb_spec attempt (retry_count - 1)); try done;
    destruct (time_sleep w _) eqn:Hsleep; try done;
    intros [= <- <-]; eexists msg, _;
    (split; [reflexivity |]); (split; [assumption |]);
    (split; [congruence |]); (split; [exact Hsleep |]);
    intros; congruence.
Qed.

(** The last iteration returns. *)
Lemma attempt_step_last w video_id retry_count delay_range proxies attempt :
  retry_count - 1 <= attempt ->
  exists t result,
    attempt_step w video_id retry_count delay_range proxies attempt
      = (t, inr (Return result)).
Proof.
  intros Hlast. rewrite attempt_step_cases.
  destruct (attempt_try w video_id retry_count delay_range proxies attempt)
    as [t0 [msg | result0]]; [| eauto].
  rewrite handle_error_cases.
  destruct (classify w msg);
    try destruct (Z.ltb_spec attempt (retry_count - 1)); try lia;
    simpl; eauto.
Qed.

(** What an iteration that returns can return. *)
Lemma attempt_step_return_spec w video_id retry_count delay_range proxies
    attempt t result :
  attempt_step w video_id retry_count delay_range proxies attempt
    = (t, inr (Return result)) ->
  step_return w video_id proxies attempt result.
Proof.
  intros Hstep. apply attempt_step_return in Hstep as [_ Hresult].
  destruct Hresult as [Htry | (msg & _ & Hclass)].
  - apply attempt_try_returns in Htry
      as (before & api & fetched & _ & Hapi & Hfetch & _ & ->).
    apply return_success. unfold fetch_with. by rewrite Hapi.
  - destruct (classify w msg); [destruct Hclass as [_ ->] | subst result
                               | destruct Hclass as [_ ->]];
      apply return_failure; try done; set_solver.
Qed.

(** How the [try] ends once its delay is over: as the constructor of the
    client and the fetch do. *)
Lemma attempt_try_outcome w video_id retry_count delay_range proxies attempt :
  delay_outcome w retry_count delay_range attempt = inr tt ->
  snd (attempt_try w video_id retry_count delay_range proxies attempt)
  = match fetch_with w video_id proxies attempt with
    | inl message => inl message
    | inr fetched =>
        inr (success_result fetched (attempt + 1)
               (proxy_used_of w (fst (selected w proxies attempt))
                                (snd (selected w proxies attempt))))
    end.
Proof.
  unfold delay_outcome, fetch_with. intros Hdelay. rewrite attempt_try_cases.
  destruct (wait_before_retry w retry_count delay_range attempt)
    as [waited [message | []]]; [done |].
  by destruct (api_used w proxies attempt) as [message | api].
Qed.

(** ** The loop *)

Section Loop.
Context (w : World) (video_id : string) (retry_count : Z)
        (delay_range : value * value).

#[local] Abbreviation proxies := (available_proxies w).
#[local] Abbreviation step :=
  (attempt_step w video_id retry_count delay_range proxies).
#[local] Abbreviation loop :=
  (attempt_loop w video_id retry_count delay_range proxies).
#[local] Abbreviation try_of :=
  (attempt_try w video_id retry_count delay_range proxies).

Lemma attempt_loop_continue attempt rest t :
  step attempt = (t, inr Continue) ->
  loop (attempt :: rest) = (t ++ fst (loop rest), snd (loop rest)).
Proof.
  intros H. simpl. rewrite H. cbn [bind].
  by destruct (attempt_loop _ _ _ _ _ rest).
Qed.

Lemma attempt_loop_return attempt rest t result :
  step attempt = (t, inr (Return result)) ->
  loop (attempt :: rest) = (t, inr result).
Proof. intros H. simpl. rewrite H. cbn [bind ret]. by rewrite app_nil_r. Qed.

Lemma attempt_loop_raise attempt rest t message :
  step attempt = (t, inl message) ->
  loop (attempt :: rest) = (t, inl message).
Proof. intros H. simpl. by rewrite H. Qed.

(** Whatever the loop returns is returned by one of its iterations, or is
    the dictionary after the loop. *)
Lemma attempt_loop_result attempts : forall t result,
  Forall (fun attempt => 0 <= attempt < retry_count) attempts ->
  loop attempts = (t, inr result) ->
  extraction_result w video_id retry_count result.
Proof.
  induction attempts as [|attempt rest IH]; intros t result Hall.
  - intros [= _ <-]. apply result_of_fallback.
  - inversion Hall as [|? ? Hattempt Hrest]; subst.
    destruct (step attempt) as [t0 [message | [result0 |]]] eqn:Hstep.
    + by rewrite (attempt_loop_raise _ _ _ _ Hstep).
    + rewrite (attempt_loop_return _ _ _ _ Hstep). intros [= _ <-].
      apply result_of_attempt with attempt; [done |].
      by apply attempt_step_return_spec in Hstep.
    + rewrite (attempt_loop_continue _ _ _ Hstep).
      destruct (loop rest) as [t1 r1] eqn:Hrest'. simpl.
      intros [= _ ->]. by apply (IH t1).
Qed.

(** When the last attempt is among those to make, a loop that returns is a
    sequence of iterations that go on, closed by one that returns. *)
Lemma attempt_loop_iterations (count : nat) : forall first t result,
  first + Z.of_nat (S count) = retry_count ->
  loop (seqZ first (Z.of_nat (S count))) = (t, inr result) ->
  exists continued : nat,
    (continued <= count)%nat /\ iterations step first continued t result.
Proof.
  induction count as [|count IH]; intros first t result Hlast;
    rewrite seqZ_cons by lia;
    destruct (step first) as [t0 [message | [result0 |]]] eqn:Hstep.
  - by rewrite (attempt_loop_raise _ _ _ _ Hstep).
  - rewrite (attempt_loop_return _ _ _ _ Hstep). intros [= <- <-].
    exists 0%nat. split; [lia |]. by constructor.
  - apply attempt_step_continue in Hstep as (? & ? & ? & _ & ? & _). lia.
  - by rewrite (attempt_loop_raise _ _ _ _ Hstep).
  - rewrite (attempt_loop_return _ _ _ _ Hstep). intros [= <- <-].
    exists 0%nat. split; [lia |]. by constructor.
  - rewrite (attempt_loop_continue _ _ _ Hstep).
    replace (Z.pred (Z.of_nat (S (S count)))) with (Z.of_nat (S count))
      by lia.
    destruct (loop (seqZ (Z.succ first) (Z.of_nat (S count))))
      as [t1 r1] eqn:Hrest. simpl.
    intros [= <- ->].
    destruct (IH (Z.succ first) t1 result ltac:(lia) Hrest) as (k & Hk & Hit).
    exists (S k). split; [lia |]. by apply iterations_continue.
Qed.

(** When the attempts before [first + k] all go on and attempt
    [first + k] returns, the loop returns that result. *)
Lemma attempt_loop_stops (k : nat) : forall first count t result,
  (forall j, first <= j < first + Z.of_nat k ->
             snd (step j) = inr Continue) ->
  step (first + Z.of_nat k) = (t, inr (Return result)) ->
  Z.of_nat k < count ->
  exists earlier,
    loop (seqZ first count) = (earlier ++ t, inr result) /\
    (length (fetches earlier) <= k)%nat.
Proof.
  induction k as [|k IH]; intros first count t result Hprev Hret Hcount;
    rewrite seqZ_cons by lia.
  - rewrite Z.add_0_r in Hret.
    rewrite (attempt_loop_return _ _ _ _ Hret). by exists [].
  - pose proof (Hprev first ltac:(lia)) as Hstep.
    destruct (step first) as [t0 r0] eqn:Hfirst. simpl in Hstep. subst r0.
    rewrite (attempt_loop_continue _ _ _ Hfirst).
    destruct (IH (Z.succ first) (Z.pred count) t result)
      as (earlier & Hloop & Hlen).
    + intros j Hj. apply Hprev. lia.
    + by replace (Z.succ first + Z.of_nat k)
        with (first + Z.of_nat (S k)) by lia.
    + lia.
    + rewrite Hloop. simpl. exists (t0 ++ earlier).
      rewrite app_assoc. split; [done |].
      rewrite fetches_app, length_app.
      apply attempt_step_continue in Hfirst
        as (msg & line & seconds & _ & _ & -> & _).
      destruct (attempt_try_trace w video_id retry_count delay_range proxies
                  first) as (_ & _ & _ & _ & Hf).
      rewrite fetches_app, Hf. simpl. rewrite app_nil_r.
      destruct (delay_outcome w retry_count delay_range first);
        [simpl; lia |].
      destruct (api_used w proxies first); simpl; lia.
Qed.

(** While the [try] meets rate limits and attempts remain, the whole
    seconds slept double from 30 on. *)
Lemma attempt_loop_backoff (k : nat) : forall first count t result,
  (forall j, first <= j <= first + Z.of_nat k ->
             exists error_msg,
               snd (try_of j) = inl error_msg /\
               rate_limit_message w error_msg = true) ->
  first + Z.of_nat k < retry_count - 1 ->
  Z.of_nat k < count ->
  loop (seqZ first count) = (t, inr result) ->
  backoff_waits t !! k = Some (30 * 2 ^ (first + Z.of_nat k)).
Proof.
  induction k as [|k IH]; intros first count t result Hrate Hlast Hcount;
    rewrite seqZ_cons by lia;
    destruct (Hrate first ltac:(lia)) as (msg & Htry & Hmsg);
    pose proof (attempt_step_cases w video_id retry_count delay_range proxies
                  first) as Hstep;
    destruct (attempt_try_trace w video_id retry_count delay_range proxies
                first) as (_ & Hquiet & _);
    destruct (try_of first) as [t0 r0]; simpl in Htry, Hquiet; subst r0;
    rewrite handle_error_cases in Hstep;
    unfold classify in Hstep; rewrite Hmsg in Hstep;
    destruct (Z.ltb_spec first (retry_count - 1)); try lia;
    destruct (time_sleep w _); simpl in Hstep.
  - by rewrite (attempt_loop_raise _ _ _ _ Hstep).
  - rewrite (attempt_loop_continue _ _ _ Hstep). intros [= <- _].
    rewrite !backoff_waits_app, Hquiet. simpl.
    f_equal. rewrite Z.add_0_r. lia.
  - by rewrite (attempt_loop_raise _ _ _ _ Hstep).
  - rewrite (attempt_loop_continue _ _ _ Hstep).
    destruct (loop (seqZ (Z.succ first) (Z.pred count))) as [t1 r1] eqn:Hrest.
    simpl. intros [= <- ->].
    rewrite !backoff_waits_app, Hquiet. simpl.
    rewrite (IH (Z.succ first) (Z.pred count) t1 result); try lia.
    + do 3 f_equal. lia.
    + intros j Hj. apply Hrate. lia.
    + exact Hrest.
Qed.

(** *** Iterations *)

(** The iteration that returns is attempt [first + continued]; its events
    close the trace. *)
Lemma iterations_last first continued t result :
  iterations step first continued t result ->
  exists earlier last,
    t = earlier ++ last /\
    step (first + Z.of_nat continued) = (last, inr (Return result)).
Proof.
  induction 1 as [first t result Hstep
                 | first k t t' result Hstep _ (earlier & last & -> & IH)].
  - exists [], t. by rewrite Z.add_0_r.
  - exists (t ++ earlier), last. rewrite app_assoc. split; [done |].
    by replace (first + Z.of_nat (S k)) with (first + 1 + Z.of_nat k) by lia.
Qed.

(** Every iteration before it met, in its [try], an error that is not of
    the no-transcript class. *)
Lemma iterations_earlier first continued t result :
  iterations step first continued t result ->
  forall j, first <= j < first + Z.of_nat continued ->
    exists error_msg,
      snd (try_of j) = inl error_msg /\
      classify w error_msg <> NoTranscript.
Proof.
  induction 1 as [first t result Hstep
                 | first k t t' result Hstep _ IH]; intros j Hj; [lia |].
  destruct (decide (j = first)) as [-> | Hne].
  - apply attempt_step_continue in Hstep
      as (msg & _ & _ & Htry & _ & _ & _ & [[Hc _] | [Hc _]]);
      exists msg; by rewrite Hc.
  - apply IH. lia.
Qed.

(** One line announces each iteration that goes on. *)
Lemma iterations_retries first continued t result :
  iterations step first continued t result ->
  retries t = continued.
Proof.
  induction 1 as [first t result Hstep
                 | first k t t' result Hstep _ IH].
  - apply attempt_step_return in Hstep as [-> _].
    by destruct (attempt_try_trace w video_id retry_count delay_range proxies
                   first) as (_ & _ & -> & _).
  - apply attempt_step_continue in Hstep
      as (msg & line & seconds & _ & _ & -> & Hline & _).
    destruct (attempt_try_trace w video_id retry_count delay_range proxies
                first) as (_ & _ & Hn & _).
    rewrite !retries_app, Hn, IH. unfold retries.
    change (List.filter is_retry_line [Print line; Sleep seconds])
      with (if is_retry_line (Print line) then [Print line] else []).
    by rewrite Hline.
Qed.

(** The fetches of the iterations are those of their [try]s. *)
Lemma iterations_fetches first continued t result :
  iterations step first continued t result ->
  fetches t =
    concat ((fun attempt => fetches (fst (try_of attempt)))
              <$> seqZ first (Z.of_nat (S continued))).
Proof.
  induction 1 as [first t result Hstep
                 | first k t t' result Hstep _ IH].
  - apply attempt_step_return in Hstep as [-> _].
    change (Z.of_nat 1) with 1. rewrite seqZ_cons, seqZ_nil by lia.
    simpl. by rewrite app_nil_r.
  - apply attempt_step_continue in Hstep
      as (msg & line & seconds & _ & _ & -> & _).
    rewrite !fetches_app, IH.
    change (fetches [Print line; Sleep seconds]) with (@nil event).
    rewrite app_nil_r.
    rewrite (seqZ_cons first (Z.of_nat (S (S k)))) by lia.
    rewrite fmap_cons. cbn [concat].
    replace (Z.succ first) with (first + 1) by lia.
    by replace (Z.pred (Z.of_nat (S (S k)))) with (Z.of_nat (S k)) by lia.
Qed.

(** The iterations send no HTTP request. *)
Lemma iterations_http_requests first continued t result :
  iterations step first continued t result ->
  http_requests t = [].
Proof.
  induction 1 as [first t result Hstep
                 | first k t t' result Hstep _ IH].
  - apply attempt_step_return in Hstep as [-> _].
    by destruct (attempt_try_trace w video_id retry_count delay_range proxies
                   first) as (-> & _).
  - apply attempt_step_continue in Hstep
      as (msg & line & seconds & _ & _ & -> & _).
    destruct (attempt_try_trace w video_id retry_count delay_range proxies
                first) as (Hr & _).
    by rewrite !http_requests_app, Hr, IH.
Qed.

(** An iteration that goes on sleeps once in its [except] clause; the
    delay of a retry sleeps at most once more. *)
Lemma iterations_sleeps first continued t result :
  0 <= first ->
  iterations step first continued t result ->
  (continued <= length (sleeps t)
   <= 2 * continued + if (0 <? first)%Z then 1 else 0)%nat.
Proof.
  intros Hfirst.
  induction 1 as [first t result Hstep
                 | first k t t' result Hstep _ IH].
  - apply attempt_step_return in Hstep as [-> _].
    destruct (attempt_try_trace w video_id retry_count delay_range proxies
                first) as (_ & _ & _ & -> & _).
    destruct (wait_before_retry_trace w retry_count delay_range first)
      as (_ & _ & _ & _ & ->).
    destruct (delay_outcome _ _ _ _), (0 <? first); lia.
  - apply attempt_step_continue in Hstep
      as (msg & line & seconds & _ & _ & -> & _).
    destruct (attempt_try_trace w video_id retry_count delay_range proxies
                first) as (_ & _ & _ & Hs & _).
    destruct (wait_before_retry_trace w retry_count delay_range first)
      as (_ & _ & _ & _ & Hw).
    do 2 rewrite sleeps_app. rewrite !length_app, Hs, Hw. simpl.
    specialize (IH ltac:(lia)).
    destruct (Z.ltb_spec 0 (first + 1)); [| lia].
    destruct (delay_outcome _ _ _ _), (0 <? first); lia.
Qed.

(** When the delays of the retries come back, each iteration that goes on
    is followed by two sleeps. *)
Lemma iterations_sleeps_exact first continued t result :
  0 <= first ->
  iterations step first continued t result ->
  (forall j, first <= j <= first + Z.of_nat continued ->
             delay_outcome w retry_count delay_range j = inr tt) ->
  length (sleeps t)
  = (2 * continued + if (0 <? first)%Z then 1 else 0)%nat.
Proof.
  intros Hfirst.
  induction 1 as [first t result Hstep
                 | first k t t' result Hstep _ IH]; intros Hdelay.
  - apply attempt_step_return in Hstep as [-> _].
    destruct (attempt_try_trace w video_id retry_count delay_range proxies
                first) as (_ & _ & _ & -> & _).
    destruct (wait_before_retry_trace w retry_count delay_range first)
      as (_ & _ & _ & _ & ->).
    rewrite (Hdelay first) by lia. simpl. lia.
  - apply attempt_step_continue in Hstep
      as (msg & line & seconds & _ & _ & -> & _).
    destruct (attempt_try_trace w video_id retry_count delay_range proxies
                first) as (_ & _ & _ & Hs & _).
    destruct (wait_before_retry_trace w retry_count delay_range first)
      as (_ & _ & _ & _ & Hw).
    do 2 rewrite sleeps_app. rewrite !length_app, Hs, Hw. simpl.
    rewrite (Hdelay first) by lia.
    rewrite IH; [| lia | intros j Hj; apply Hdelay; lia].
    destruct (Z.ltb_spec 0 (first + 1)); [| lia].
    destruct (0 <? first); lia.
Qed.

(** The whole seconds slept from attempt [first] on stay below what the
    doubling adds up to before the last attempt. *)
Lemma iterations_backoff_total first continued t result :
  0 <= first ->
  iterations step first continued t result ->
  0 <= total (backoff_waits t) /\
  total (backoff_waits t) + 30 * 2 ^ first
  <= 30 * 2 ^ (Z.max first (retry_count - 1)).
Proof.
  intros Hfirst.
  induction 1 as [first t result Hstep
                 | first k t t' result Hstep _ IH].
  - apply attempt_step_return in Hstep as [-> _].
    destruct (attempt_try_trace w video_id retry_count delay_range proxies
                first) as (_ & -> & _).
    simpl. split; [lia |].
    apply Z.mul_le_mono_nonneg_l; [lia |].
    apply Z.pow_le_mono_r; lia.
  - apply attempt_step_continue in Hstep
      as (msg & line & seconds & _ & Hlt & -> & _ & Hsec).
    destruct (attempt_try_trace w video_id retry_count delay_range proxies
                first) as (_ & Hb & _).
    do 2 rewrite backoff_waits_app. rewrite Hb, !total_app. simpl.
    destruct (IH ltac:(lia)) as [IH0 IH1].
    rewrite Z.max_r in IH1 |- * by lia.
    replace (2 ^ (first + 1)) with (2 * 2 ^ first) in IH1
      by (rewrite Z.pow_add_r by lia; lia).
    assert (0 <= 2 ^ first) by (apply Z.pow_nonneg; lia).
    destruct Hsec as [[_ ->] | [_ [delay ->]]]; simpl; lia.
Qed.

End Loop.

(** ** The whole run *)

(** The proxy fetch neither sleeps nor fetches a transcript, and announces
    no retry. *)
Lemma fetch_webshare_proxies_no_retry w :
  retries (fst (fetch_webshare_proxies w)) = 0%nat.
Proof.
  assert (Forall (fun e => is_retry_line e = false)
                 (fst (fetch_webshare_proxies w))) as Hall.
  { unfold fetch_webshare_proxies, fetch_webshare_proxies_try. solve_events. }
  unfold retries.
  induction Hall as [|e t He _ IH]; [done |].
  change (List.filter is_retry_line (e :: t))
    with (if is_retry_line e then e :: List.filter is_retry_line t
          else List.filter is_retry_line t).
  by rewrite He.
Qed.

Lemma failure_result_error_type error errorType :
  failure_result error errorType !! "errorType" = Some (VStr errorType).
Proof. reflexivity. Qed.

Section Run.
Context (w : World) (video_id : string) (retry_count : Z)
        (delay_range : value * value).

#[local] Abbreviation proxies := (available_proxies w).
#[local] Abbreviation step :=
  (attempt_step w video_id retry_count delay_range proxies).
#[local] Abbreviation loop :=
  (attempt_loop w video_id retry_count delay_range proxies).

(** A run is the proxy fetch followed by the loop; what the loop raises
    leaves [extract_transcript]. *)
Lemma extract_transcript_unfold :
  extract_transcript w video_id retry_count delay_range =
    (fst (fetch_webshare_proxies w) ++ fst (loop (range retry_count)),
     match snd (loop (range retry_count)) with
     | inl message => inl (LibraryError message)
     | inr result => inr result
     end).
Proof.
  unfold extract_transcript.
  destruct (fetch_webshare_proxies_available w) as [t0 H].
  rewrite H. cbn [bind fst]. unfold uncaught.
  by destruct (attempt_loop _ _ _ _ _ _) as [t [message | result]].
Qed.

Lemma extract_transcript_loop t result :
  extract_transcript w video_id retry_count delay_range = (t, inr result) ->
  exists t',
    t = fst (fetch_webshare_proxies w) ++ t' /\
    loop (range retry_count) = (t', inr result).
Proof.
  rewrite extract_transcript_unfold.
  destruct (loop (range retry_count)) as [t' [message | result']];
    [done |].
  intros [= <- <-]. by exists t'.
Qed.

Lemma extract_transcript_result t result :
  extract_transcript w video_id retry_count delay_range = (t, inr result) ->
  extraction_result w video_id retry_count result.
Proof.
  intros Hrun. apply extract_transcript_loop in Hrun as (t' & _ & Hloop).
  apply (attempt_loop_result w video_id retry_count delay_range
           (range retry_count) t'); [| done].
  apply Forall_seqZ. lia.
Qed.

(** Without any attempt to make, the run is the proxy fetch and the result
    the one after the loop. *)
Lemma extract_transcript_empty_range :
  retry_count <= 0 ->
  extract_transcript w video_id retry_count delay_range =
    (fst (fetch_webshare_proxies w),
     inr (failure_result
            ("All " +:+ pretty retry_count +:+ " attempts failed")
            "MAX_RETRIES_EXCEEDED")) /\
  fetches (fst (fetch_webshare_proxies w)) = [] /\
  sleeps (fst (fetch_webshare_proxies w)) = [].
Proof.
  intros Hcount. rewrite extract_transcript_unfold.
  unfold range. rewrite seqZ_nil by done. simpl. rewrite app_nil_r.
  destruct (fetch_webshare_proxies_no_effect w) as (Hf & Hs & _). done.
Qed.

(** With an attempt to make, a run that returns is the proxy fetch
    followed by iterations from attempt 0 on. *)
Lemma extract_transcript_iterations t result :
  1 <= retry_count ->
  extract_transcript w video_id retry_count delay_range = (t, inr result) ->
  exists (continued : nat) t',
    Z.of_nat continued < retry_count /\
    t = fst (fetch_webshare_proxies w) ++ t' /\
    retries t = continued /\
    iterations step 0 continued t' result.
Proof.
  intros Hcount Hrun.
  apply extract_transcript_loop in Hrun as (t' & -> & Hloop).
  unfold range in Hloop.
  replace retry_count with (Z.of_nat (S (Z.to_nat (retry_count - 1))))
    in Hloop at 2 by lia.
  apply attempt_loop_iterations in Hloop as (k & Hk & Hit); [| lia].
  exists k, t'. split; [lia |]. split; [done |]. split; [| done].
  rewrite retries_app, fetch_webshare_proxies_no_retry.
  by rewrite (iterations_retries _ _ _ _ _ _ _ _ Hit).
Qed.

(** How a run with an attempt to make ends: after [continued] attempts
    whose [try] met a retryable error, attempt [continued] returned, by its
    fetch or by its error. *)
Lemma extract_transcript_outcome t result :
  1 <= retry_count ->
  extract_transcript w video_id retry_count delay_range = (t, inr result) ->
  exists continued : nat,
    Z.of_nat continued < retry_count /\
    retries t = continued /\
    (forall j, 0 <= j < Z.of_nat continued ->
       exists error_msg,
         try_outcome w video_id retry_count delay_range j = inl error_msg /\
         classify w error_msg <> NoTranscript) /\
    ((exists earlier api fetched,
        t = earlier ++ [Fetch api video_id languages] /\
        delay_outcome w retry_count delay_range (Z.of_nat continued)
          = inr tt /\
        api_used w proxies (Z.of_nat continued) = inr api /\
        api_fetch w (Z.of_nat continued) api video_id languages
          = inr fetched /\
        result = success_result fetched (Z.of_nat continued + 1)
                   (proxy_used_at w (Z.of_nat continued))) \/
     (exists error_msg,
        try_outcome w video_id retry_count delay_range (Z.of_nat continued)
          = inl error_msg /\
        match classify w error_msg with
        | RateLimit =>
            Z.of_nat continued = retry_count - 1 /\
            result = failure_result
                       (exhausted_error "IP_BLOCKED" retry_count error_msg)
                       "IP_BLOCKED"
        | NoTranscript =>
            result = failure_result
                       ("No transcript available: " +:+ error_msg)
                       "NO_TRANSCRIPT"
        | UnknownError =>
            Z.of_nat continued = retry_count - 1 /\
            result = failure_result
                       (exhausted_error "UNKNOWN" retry_count error_msg)
                       "UNKNOWN"
        end)).
Proof.
  intros Hcount Hrun.
  destruct (extract_transcript_iterations t result Hcount Hrun)
    as (k & t' & Hk & -> & Hretries & Hit).
  exists k. split; [done |]. split; [done |]. split.
  { intros j Hj.
    apply (iterations_earlier _ _ _ _ _ _ _ _ Hit). lia. }
  destruct (iterations_last _ _ _ _ _ _ _ _ Hit)
    as (earlier & last & -> & Hlast).
  simpl in Hlast.
  apply attempt_step_return in Hlast as [-> Hresult].
  destruct Hresult as [Htry | (msg & Htry & Hclass)].
  - left.
    apply attempt_try_returns in Htry
      as (before & api & fetched & Hdelay & Hapi & Hfetch & -> & ->).
    exists (fst (fetch_webshare_proxies w) ++ earlier ++ before), api, fetched.
    split_and!; try done. by rewrite <- !app_assoc.
  - right. exists msg. split; [done |].
    destruct (classify w msg); [| done |]; destruct Hclass; split; [lia | done
                                                                | lia | done].
Qed.

End Run.

(** ** The result dictionary *)

Lemma join_cons sep part1 part2 parts :
  Str.join sep (part1 :: part2 :: parts)
  = part1 +:+ sep +:+ Str.join sep (part2 :: parts).
Proof. reflexivity. Qed.

Lemma join_singleton sep part : Str.join sep [part] = part.
Proof. reflexivity. Qed.

Lemma step_return_success w video_id proxies attempt result :
  step_return w video_id proxies attempt result ->
  result !! "success" = Some (VBool true) ->
  exists fetched,
    fetch_with w video_id proxies attempt = inr fetched /\
    result = success_result fetched (attempt + 1)
               (proxy_used_of w (fst (selected w proxies attempt))
                                (snd (selected w proxies attempt))).
Proof. intros [fetched Hfetch | error ty _ _] Hs; [eauto | done]. Qed.

Lemma step_error_type errorType :
  errorType ∈ ["IP_BLOCKED"; "NO_TRANSCRIPT"; "UNKNOWN"] ->
  errorType ∈ error_types /\ errorType <> "MAX_RETRIES_EXCEEDED".
Proof.
  unfold error_types. rewrite !elem_of_cons, elem_of_nil.
  intros [-> | [-> | [-> | []]]]; (split; [| done]); auto.
Qed.

Lemma extraction_result_failure w video_id retry_count result :
  extraction_result w video_id retry_count result ->
  result !! "success" = Some (VBool false) ->
  exists error errorType,
    result = failure_result error errorType /\
    errorType ∈ error_types /\ error <> "".
Proof.
  intros [attempt r _ [fetched _ | error ty Hty He] |] Hs.
  - done.
  - exists error, ty. split; [done |]. split; [| done].
    by apply step_error_type.
  - eexists _, _. split; [reflexivity |]. split; [| done].
    unfold error_types. rewrite !elem_of_cons. auto.
Qed.

(** [success] is always there and is a boolean. *)
Lemma extraction_result_success_flag w video_id retry_count result :
  extraction_result w video_id retry_count result ->
  exists b, result !! "success" = Some (VBool b).
Proof.
  intros [attempt r _ [fetched _ | error ty _ _] |]; by eexists.
Qed.


(** C5: a failure result carries [error] and [errorType], the latter one
    of the four error types, and its [segments], [fullText] and
    [segmentCount] are the empty list, the empty string and zero. *)
Theorem extract_transcript_failure w video_id retry_count delay_range t result :
  extract_transcript w video_id retry_count delay_range = (t, inr result) ->
  result !! "success" = Some (VBool false) ->
  exists error errorType,
    result !! "error" = Some (VStr error) /\
    result !! "errorType" = Some (VStr errorType) /\
    errorType ∈ error_types /\
    result !! "segments" = Some (VList []) /\
    result !! "fullText" = Some (VStr "") /\
    result !! "segmentCount" = Some (VInt 0).
Proof.
  intros Hrun Hs. apply extract_transcript_result in Hrun.
  apply extraction_result_failure in Hrun as (error & ty & -> & Hty & _);
    [| done].
  exists error, ty. split_and!; done.
Qed.

(** C10: a failure result has neither [attempt] nor [proxy_used], a
    successful one neither [error] nor [errorType]. *)
Theorem extract_transcript_absent_keys w video_id retry_count delay_range
    t result :
  extract_transcript w video_id retry_count delay_range = (t, inr result) ->
  (result !! "success" = Some (VBool false) ->
   result !! "attempt" = None /\ result !! "proxy_used" = None) /\
  (result !! "success" = Some (VBool true) ->
   result !! "error" = None /\ result !! "errorType" = None).
Proof.
  intros Hrun. apply extract_transcript_result in Hrun. split; intros Hs.
  - by apply extraction_result_failure in Hrun as (error & ty & -> & _).
  - destruct Hrun as [attempt r _ Hret |]; [| done].
    by apply step_return_success in Hret as (fetched & _ & ->).
Qed.

(** C6, as the script does it: [success] tells which keys the result
    holds.  A successful result holds the five keys of success and neither
    [error] nor [errorType]; a failure holds [error] and [errorType], and
    of the five keys of success it still holds [segments], [fullText] and
    [segmentCount] (as the empty list, the empty string and zero, by C5)
    but neither [attempt] nor [proxy_used]. *)
Theorem extract_transcript_fields_by_success w video_id retry_count
    delay_range t result :
  extract_transcript w video_id retry_count delay_range = (t, inr result) ->
  exists b,
    result !! "success" = Some (VBool b) /\
    List.filter (present result) (success_fields ++ failure_fields)
    = if b then ["segments"; "fullText"; "segmentCount"; "attempt";
                 "proxy_used"]
      else ["segments"; "fullText"; "segmentCount"; "error"; "errorType"].
Proof.
  intros Hrun. apply extract_transcript_result in Hrun.
  destruct (extraction_result_success_flag _ _ _ _ Hrun) as [[] Hs].
  - exists true. split; [done |].
    destruct Hrun as [attempt r Hattempt Hret |]; [| done].
    by apply step_return_success in Hret as (fetched & _ & ->).
  - exists false. split; [done |].
    by apply extraction_result_failure in Hrun as (error & ty & -> & _).
Qed.

(** With an attempt to make, a run that returns does not return the
    dictionary that follows the loop. *)
Lemma returned_within_loop w video_id retry_count delay_range t result :
  1 <= retry_count ->
  extract_transcript w video_id retry_count delay_range = (t, inr result) ->
  result !! "errorType" <> Some (VStr "MAX_RETRIES_EXCEEDED").
Proof.
  intros Hcount Hrun.
  destruct (extract_transcript_iterations w video_id retry_count delay_range
              t result Hcount Hrun) as (k & t' & _ & _ & _ & Hit).
  destruct (iterations_last _ _ _ _ _ _ _ _ Hit)
    as (earlier & last & _ & Hlast).
  apply attempt_step_return_spec in Hlast.
  destruct Hlast as [fetched _ | error ty Hty _]; [done |].
  apply step_error_type in Hty as [_ Hty]. intros H. apply Hty.
  change (Some (VStr ty) = Some (VStr "MAX_RETRIES_EXCEEDED")) in H.
  congruence.
Qed.

(** ** Classification of errors *)

(** C3, as the script does it: the class the [except] clause acts on is
    [classify] of the message, that is, rate-limit when the message holds
    "IP" or "429" as written or its lower-cased form holds "blocked", else
    no-transcript when its lower-cased form holds "transcript" or
    "available", else unknown.  The lower-cased form is the one of
    [str.lower], on every message. *)
Theorem handle_error_classifies w retry_count attempt error_msg :
  observed_class (handle_error w retry_count attempt error_msg)
  = Some (classify w error_msg).
Proof.
  rewrite handle_error_cases.
  destruct (classify w error_msg);
    try destruct (attempt <? retry_count - 1);
    try destruct (time_sleep w _); reflexivity.
Qed.

(** On a message of ASCII characters the lower-cased form is the message
    with its capital letters A to Z replaced. *)
Lemma classify_ascii w error_msg :
  Str.is_ascii error_msg = true ->
  classify w error_msg
  = if Str.contains "IP" error_msg
       || Str.contains "blocked" (Str.ascii_lower error_msg)
       || Str.contains "429" error_msg
    then RateLimit
    else if Str.contains "transcript" (Str.ascii_lower error_msg)
            || Str.contains "available" (Str.ascii_lower error_msg)
    then NoTranscript
    else UnknownError.
Proof.
  intros Hascii.
  unfold classify, rate_limit_message, no_transcript_message.
  by rewrite (lower_ascii_text w error_msg Hascii).
Qed.

(** A message that holds "transcript" and is not taken for a rate limit is
    of the no-transcript class, whatever else it holds. *)
Lemma classify_transcript w error_msg :
  Str.substring_of "transcript" error_msg ->
  rate_limit_message w error_msg = false ->
  classify w error_msg = NoTranscript.
Proof.
  intros Hsub Hrate. unfold classify, no_transcript_message. rewrite Hrate.
  by rewrite (contains_lower_keeps w "transcript" error_msg).
Qed.

(** ** Retries *)

(** C4: when the attempts 0 to k all fail with an error of the rate-limit
    class and attempt k is not the last, the wait after attempt k is
    30 * 2^k seconds.  An attempt fails with the error that leaves its
    [try], whichever statement raised it. *)
Theorem backoff_schedule w video_id retry_count delay_range t result (k : nat) :
  extract_transcript w video_id retry_count delay_range = (t, inr result) ->
  Z.of_nat k < retry_count - 1 ->
  (forall j, 0 <= j <= Z.of_nat k ->
             exists error_msg,
               try_outcome w video_id retry_count delay_range j
                 = inl error_msg /\
               rate_limit_message w error_msg = true) ->
  backoff_waits t !! k = Some (30 * 2 ^ Z.of_nat k).
Proof.
  intros Hrun Hk Hrate.
  apply extract_transcript_loop in Hrun as (t' & -> & Hloop).
  destruct (fetch_webshare_proxies_no_effect w) as (_ & _ & Hq).
  rewrite backoff_waits_app, Hq. simpl. unfold range in Hloop.
  rewrite (attempt_loop_backoff w video_id retry_count delay_range k 0
             retry_count t' result); [done | | lia | lia | done].
  intros j Hj. apply Hrate. lia.
Qed.

(** C2, as the script does it: an error of the transcript fetch whose
    message holds "transcript" and is not taken for a rate limit ends the
    run at the attempt that meets it: the run returns the failure
    NO_TRANSCRIPT with that message right after that fetch, whatever the
    number of attempts left.  Met at the first attempt, it leaves the run
    with that one fetch; met at attempt [a], after [a] attempts that went
    on to a retry, with at most [a] fetches before it. *)
Theorem no_transcript_ends_run w video_id retry_count delay_range (a : nat)
    api error_msg :
  Z.of_nat a < retry_count ->
  (forall j, 0 <= j < Z.of_nat a ->
             snd (attempt_step w video_id retry_count delay_range
                               (available_proxies w) j) = inr Continue) ->
  delay_outcome w retry_count delay_range (Z.of_nat a) = inr tt ->
  api_used w (available_proxies w) (Z.of_nat a) = inr api ->
  api_fetch w (Z.of_nat a) api video_id languages = inl error_msg ->
  Str.substring_of "transcript" error_msg ->
  rate_limit_message w error_msg = false ->
  exists earlier,
    extract_transcript w video_id retry_count delay_range
      = (earlier ++ [Fetch api video_id languages],
         inr (failure_result ("No transcript available: " +:+ error_msg)
                             "NO_TRANSCRIPT")) /\
    (length (fetches earlier) <= a)%nat.
Proof.
  intros Ha Hprev Hdelay Hapi Hfetch Hsub Hrate.
  pose proof (classify_transcript w error_msg Hsub Hrate) as Hclass.
  destruct (attempt_try_fetch_raises w video_id retry_count delay_range
              (available_proxies w) (Z.of_nat a) api error_msg
              Hdelay Hapi Hfetch) as (before & Hbefore & Htry).
  pose proof (attempt_step_cases w video_id retry_count delay_range
                (available_proxies w) (Z.of_nat a)) as Hstep.
  rewrite Htry, handle_error_cases, Hclass in Hstep. simpl in Hstep.
  rewrite app_nil_r in Hstep.
  destruct (attempt_loop_stops w video_id retry_count delay_range a 0
              retry_count _ _ Hprev Hstep Ha) as (earlier & Hloop & Hlen).
  rewrite extract_transcript_unfold. unfold range. rewrite Hloop. simpl.
  exists (fst (fetch_webshare_proxies w) ++ earlier ++ before). split.
  - by rewrite <- !app_assoc.
  - destruct (fetch_webshare_proxies_no_effect w) as (Hf0 & _ & _).
    rewrite !fetches_app, Hf0, Hbefore, app_nil_r. simpl. lia.
Qed.

(** ** Without proxies *)

(** Without proxies every attempt builds the same client, one without
    proxy configuration. *)
Lemma api_used_no_proxies w attempt :
  api_used w [] attempt
  = YouTubeTranscriptApi_new w
      {| http_client := Some {| headers := browser_headers |};
         proxy_config := None |}.
Proof. reflexivity. Qed.

(** C7, as the script does it: without proxies the run does not fail
    early: it makes its attempts, one more than it announces retries, and
    every attempt that gets as far as the fetch (its delay came back, the
    constructor of the client did not raise) fetches the transcript with
    a client that has no proxy configuration.  The first attempt has no
    delay to wait for. *)
Theorem no_proxies_fetch_without_proxy w video_id retry_count delay_range
    t result :
  extract_transcript w video_id retry_count delay_range = (t, inr result) ->
  available_proxies w = [] ->
  1 <= retry_count ->
  exists api,
    proxy_config api = None /\
    Z.of_nat (S (retries t)) <= retry_count /\
    fetches t =
      (fun _ => Fetch api video_id languages)
        <$> List.filter (reaches_fetch w retry_count delay_range)
                        (seqZ 0 (Z.of_nat (S (retries t)))) /\
    delay_outcome w retry_count delay_range 0 = inr tt.
Proof.
  intros Hrun Hnone Hcount.
  destruct (extract_transcript_iterations w video_id retry_count delay_range
              t result Hcount Hrun) as (k & t' & Hk & -> & Hretries & Hit).
  exists {| http_client := Some {| headers := browser_headers |};
            proxy_config := None |}.
  split; [done |]. split; [lia |]. split; [| reflexivity].
  destruct (fetch_webshare_proxies_no_effect w) as (Hf0 & _ & _).
  rewrite Hretries, fetches_app, Hf0,
    (iterations_fetches _ _ _ _ _ _ _ _ Hit). simpl app.
  generalize (seqZ 0 (Z.of_nat (S k))). intros attempts.
  induction attempts as [|attempt rest IH]; [done |].
  rewrite fmap_cons. cbn [concat List.filter]. rewrite IH.
  destruct (attempt_try_trace w video_id retry_count delay_range
              (available_proxies w) attempt) as (_ & _ & _ & _ & ->).
  unfold reaches_fetch. rewrite Hnone, api_used_no_proxies.
  unfold YouTubeTranscriptApi_new.
  destruct (delay_outcome w retry_count delay_range attempt); [done |].
  by destruct (YouTubeTranscriptApi_init w _).
Qed.

(** ** The script at work *)

(** The example of section 8 of the specification: three attempts allowed,
    "429 Too Many Requests" twice, then two segments. *)
Example throttled_twice_run :
  let run := extract_transcript Examples.throttled_twice "abc123"
               default_retry_count default_delay_range in
  result_of run = success_result Examples.hello_world 3 "none" /\
  result_of run !! "fullText" = Some (VStr "Hello world") /\
  result_of run !! "segmentCount" = Some (VInt 2) /\
  result_of run !! "attempt" = Some (VInt 3) /\
  backoff_waits (fst run) = [30; 60] /\
  length (fetches (fst run)) = 3%nat.
Proof. repeat split; reflexivity. Qed.

(** Two proxies on offer, the second one drawn: the run goes through it. *)
Example two_proxies_run :
  let run := extract_transcript Examples.two_proxies "abc123"
               default_retry_count default_delay_range in
  length (available_proxies Examples.two_proxies) = 2%nat /\
  result_of run !! "proxy_used" = Some (VStr "10.0.0.2:3128") /\
  result_of run !! "attempt" = Some (VInt 1) /\
  fetches (fst run) =
    [Fetch {| http_client := Some {| headers := browser_headers |};
              proxy_config := Some {| proxy_username := VStr "user";
                                      proxy_password := VStr "secret" |} |}
           "abc123" languages].
Proof. repeat split; reflexivity. Qed.


Lemma extract_transcript_failure_witness :
  exists error errorType,
    result_of (extract_transcript Examples.without_transcript "abc123" 3
                 default_delay_range) !! "error" = Some (VStr error) /\
    result_of (extract_transcript Examples.without_transcript "abc123" 3
                 default_delay_range) !! "errorType"
      = Some (VStr errorType) /\
    errorType ∈ error_types /\
    result_of (extract_transcript Examples.without_transcript "abc123" 3
                 default_delay_range) !! "segments" = Some (VList []) /\
    result_of (extract_transcript Examples.without_transcript "abc123" 3
                 default_delay_range) !! "fullText" = Some (VStr "") /\
    result_of (extract_transcript Examples.without_transcript "abc123" 3
                 default_delay_range) !! "segmentCount" = Some (VInt 0).
Proof.
  apply (extract_transcript_failure Examples.without_transcript "abc123" 3
           default_delay_range
           (fst (extract_transcript Examples.without_transcript "abc123" 3
                   default_delay_range))).
  - reflexivity.
  - reflexivity.
Defined.

Lemma extract_transcript_absent_keys_witness :
  (result_of (extract_transcript Examples.always_blocked "abc123" 2
                default_delay_range) !! "success" = Some (VBool false) ->
   result_of (extract_transcript Examples.always_blocked "abc123" 2
                default_delay_range) !! "attempt" = None /\
   result_of (extract_transcript Examples.always_blocked "abc123" 2
                default_delay_range) !! "proxy_used" = None) /\
  (result_of (extract_transcript Examples.always_blocked "abc123" 2
                default_delay_range) !! "success" = Some (VBool true) ->
   result_of (extract_transcript Examples.always_blocked "abc123" 2
                default_delay_range) !! "error" = None /\
   result_of (extract_transcript Examples.always_blocked "abc123" 2
                default_delay_range) !! "errorType" = None).
Proof.
  apply (extract_transcript_absent_keys Examples.always_blocked "abc123" 2
           default_delay_range
           (fst (extract_transcript Examples.always_blocked "abc123" 2
                   default_delay_range))).
  reflexivity.
Defined.

Lemma extract_transcript_fields_by_success_witness :
  exists b,
    result_of (extract_transcript Examples.throttled_twice "abc123" 3
                 default_delay_range) !! "success" = Some (VBool b) /\
    List.filter
      (present (result_of (extract_transcript Examples.throttled_twice
                             "abc123" 3 default_delay_range)))
      (success_fields ++ failure_fields)
    = if b then ["segments"; "fullText"; "segmentCount"; "attempt";
                 "proxy_used"]
      else ["segments"; "fullText"; "segmentCount"; "error"; "errorType"].
Proof.
  apply (extract_transcript_fields_by_success Examples.throttled_twice
           "abc123" 3 default_delay_range
           (fst (extract_transcript Examples.throttled_twice "abc123" 3
                   default_delay_range))).
  reflexivity.
Defined.

Lemma backoff_schedule_witness :
  backoff_waits
    (fst (extract_transcript Examples.throttled_twice "abc123" 3
            default_delay_range)) !! 1%nat
  = Some (30 * 2 ^ Z.of_nat 1).
Proof.
  apply (backoff_schedule Examples.throttled_twice "abc123" 3
           default_delay_range _
           (result_of (extract_transcript Examples.throttled_twice "abc123" 3
                         default_delay_range))).
  - reflexivity.
  - simpl. lia.
  - intros j Hj. exists "429 Too Many Requests".
    assert (j = 0 \/ j = 1) as [-> | ->] by lia; split; reflexivity.
Defined.

Lemma no_transcript_ends_run_witness :
  exists earlier,
    extract_transcript MoreExamples.throttled_then_missing "abc123" 3
      default_delay_range
    = (earlier
       ++ [Fetch {| http_client := Some {| headers := browser_headers |};
                    proxy_config := None |}
                 "abc123" languages],
       inr (failure_result
              ("No transcript available: " +:+
               "No transcript found for this video")
              "NO_TRANSCRIPT")) /\
    (length (fetches earlier) <= 1)%nat.
Proof.
  apply (no_transcript_ends_run MoreExamples.throttled_then_missing "abc123" 3
           default_delay_range 1).
  - simpl. lia.
  - intros j Hj. assert (j = 0) as -> by lia. reflexivity.
  - reflexivity.
  - reflexivity.
  - reflexivity.
  - exists "No ", " found for this video". reflexivity.
  - reflexivity.
Defined.

Lemma no_proxies_fetch_without_proxy_witness :
  exists api,
    proxy_config api = None /\
    Z.of_nat
      (S (retries (fst (extract_transcript Examples.throttled_twice "abc123"
                          3 default_delay_range)))) <= 3 /\
    fetches (fst (extract_transcript Examples.throttled_twice "abc123" 3
                    default_delay_range)) =
      (fun _ => Fetch api "abc123" languages)
        <$> List.filter
              (reaches_fetch Examples.throttled_twice 3 default_delay_range)
              (seqZ 0
                 (Z.of_nat
                    (S (retries
                          (fst (extract_transcript Examples.throttled_twice
                                  "abc123" 3 default_delay_range)))))) /\
    delay_outcome Examples.throttled_twice 3 default_delay_range 0 = inr tt.
Proof.
  apply (no_proxies_fetch_without_proxy Examples.throttled_twice "abc123" 3
           default_delay_range _
           (result_of (extract_transcript Examples.throttled_twice "abc123" 3
                         default_delay_range))).
  - reflexivity.
  - reflexivity.
  - lia.
Defined.

Lemma fetch_webshare_proxies_failure_empty_witness :
  exists t line,
    fetch_webshare_proxies Examples.server_error = (t ++ [Print line], inr []).
Proof.
  apply (fetch_webshare_proxies_failure_empty Examples.server_error).
  eapply non_200_response.
  - reflexivity.
  - simpl. lia.
Defined.

(** C2 fails as stated: this message holds "transcript", yet it is of the
    rate-limit class; with three attempts allowed the script fetches three
    times and ends with IP_BLOCKED. *)
Lemma blocked_transcript_message_retried :
  fetch_outcome Examples.always_blocked "abc123" 0
    = inl Examples.blocked_message /\
  Str.substring_of "transcript" Examples.blocked_message /\
  length (fetches (fst (extract_transcript Examples.always_blocked "abc123" 3
                          default_delay_range))) = 3%nat /\
  result_of (extract_transcript Examples.always_blocked "abc123" 3
               default_delay_range) !! "errorType"
    = Some (VStr "IP_BLOCKED").
Proof.
  split; [reflexivity |]. split; [| split; reflexivity].
  by exists "Could not retrieve a ",
            ": YouTube is blocking requests from your IP".
Qed.

(** C3 fails as stated: matched without regard to case, "IP" occurs in
    "transcript", which makes this message a rate limit for the
    specification; the script takes it for a missing transcript. *)
Lemma lowercase_ip_not_rate_limit :
  spec_classify Examples.without_transcript
    "No transcript found for this video" = RateLimit /\
  observed_class
    (handle_error Examples.without_transcript 3 0
       "No transcript found for this video")
  = Some NoTranscript.
Proof. split; reflexivity. Qed.

(** C6 fails as stated.  Read as the presence of the keys, both groups are
    populated in a failure: it holds [segments], [fullText] and
    [segmentCount] next to [error] and [errorType].  Read as the fields
    holding something, the group of success is not what a success
    populates: a transcript without snippets succeeds with [segments],
    [fullText] and [segmentCount] as empty as in a failure. *)
Lemma failure_holds_success_fields :
  result_of (extract_transcript Examples.without_transcript "abc123" 3
               default_delay_range) !! "success" = Some (VBool false) /\
  List.filter
    (present (result_of (extract_transcript Examples.without_transcript
                           "abc123" 3 default_delay_range)))
    success_fields = ["segments"; "fullText"; "segmentCount"] /\
  List.filter
    (present (result_of (extract_transcript Examples.without_transcript
                           "abc123" 3 default_delay_range)))
    failure_fields = ["error"; "errorType"] /\
  result_of (extract_transcript MoreExamples.empty_transcript "abc123" 3
               default_delay_range) !! "success" = Some (VBool true) /\
  List.filter
    (populated (result_of (extract_transcript MoreExamples.empty_transcript
                             "abc123" 3 default_delay_range)))
    success_fields = ["attempt"; "proxy_used"].
Proof. repeat split; reflexivity. Qed.

(** C7 fails as stated: with a [delay_range] below zero the delay of every
    retry raises inside the [try] ([time.sleep] refuses a negative time),
    so the second and the third attempt fetch nothing.  Here there is no
    proxy and every fetch is throttled: three attempts are made, two
    retries announced, one fetch done, and the run ends on the error of
    the delay. *)
Lemma negative_delay_skips_fetch :
  available_proxies MoreExamples.always_throttled = [] /\
  retries (fst (extract_transcript MoreExamples.always_throttled "abc123" 3
                  MoreExamples.negative_delay_range)) = 2%nat /\
  length (fetches (fst (extract_transcript MoreExamples.always_throttled
                          "abc123" 3 MoreExamples.negative_delay_range)))
    = 1%nat /\
  try_outcome MoreExamples.always_throttled "abc123" 3
    MoreExamples.negative_delay_range 1
    = inl "sleep length must be non-negative" /\
  result_of (extract_transcript MoreExamples.always_throttled "abc123" 3
               MoreExamples.negative_delay_range) !! "error"
    = Some (VStr "Failed after 3 attempts: sleep length must be non-negative").
Proof. repeat split; reflexivity. Qed.

(** C9 fails on this run: thirty-one attempts allowed, twenty-nine fetches
    that fail on the connection, then a throttled one.  At attempt 29 the
    [except] clause is to wait 30 * 2^29 seconds, which is beyond the clock
    of [time.sleep]: the sleep raises, nothing catches it, and the
    iteration neither returns nor goes on: the exception leaves
    [extract_transcript], which returns no result at all. *)
Theorem backoff_sleep_escapes :
  2 ^ 29 * 30 = 16106127360 /\
  Examples.cpython_sleep (VInt 16106127360)
    = Some "timestamp too large to convert to C _PyTime_t" /\
  snd (attempt_step MoreExamples.throttled_at_thirtieth "abc123" 31
         default_delay_range
         (available_proxies MoreExamples.throttled_at_thirtieth) 29)
    = inl "timestamp too large to convert to C _PyTime_t" /\
  retries (fst (extract_transcript MoreExamples.throttled_at_thirtieth
                  "abc123" 31 default_delay_range)) = 30%nat /\
  snd (extract_transcript MoreExamples.throttled_at_thirtieth "abc123" 31
         default_delay_range)
    = inl (LibraryError "timestamp too large to convert to C _PyTime_t").
Proof. repeat split; reflexivity. Qed.

(** ** More on the whole run *)

(** The [try] of an attempt fetches at most once, with the client the
    attempt built. *)
Lemma attempt_try_fetches w video_id retry_count delay_range proxies attempt :
  fetches (fst (attempt_try w video_id retry_count delay_range proxies
                            attempt)) = [] \/
  exists api,
    api_used w proxies attempt = inr api /\
    fetches (fst (attempt_try w video_id retry_count delay_range proxies
                              attempt)) = [Fetch api video_id languages].
Proof.
  destruct (attempt_try_trace w video_id retry_count delay_range proxies
              attempt) as (_ & _ & _ & _ & ->).
  destruct (delay_outcome w retry_count delay_range attempt); [by left |].
  destruct (api_used w proxies attempt) as [message | api]; [by left |].
  right. by exists api.
Qed.

Lemma attempts_fetches w video_id retry_count delay_range proxies
    (P : event -> Prop) (attempts : list Z) :
  (forall attempt api,
     api_used w proxies attempt = inr api ->
     P (Fetch api video_id languages)) ->
  Forall P
    (concat ((fun attempt =>
                fetches (fst (attempt_try w video_id retry_count delay_range
                                          proxies attempt)))
               <$> attempts)) /\
  (length
     (concat ((fun attempt =>
                 fetches (fst (attempt_try w video_id retry_count delay_range
                                           proxies attempt)))
                <$> attempts))
   <= length attempts)%nat.
Proof.
  intros HP.
  induction attempts as [|attempt rest [IH1 IH2]].
  { split; [constructor | done]. }
  rewrite fmap_cons. cbn [concat].
  destruct (attempt_try_fetches w video_id retry_count delay_range proxies
              attempt) as [-> | (api & Hapi & ->)]; simpl.
  - split; [done | lia].
  - split; [constructor; eauto | lia].
Qed.

(** The fetches of a run that returns: at most one per attempt made, each
    with the client of its attempt. *)
Lemma run_fetches w video_id retry_count delay_range t result
    (P : event -> Prop) :
  extract_transcript w video_id retry_count delay_range = (t, inr result) ->
  (forall attempt api,
     api_used w (available_proxies w) attempt = inr api ->
     P (Fetch api video_id languages)) ->
  Forall P (fetches t) /\
  Z.of_nat (length (fetches t)) <= Z.max 0 retry_count /\
  (length (fetches t) <= S (retries t))%nat.
Proof.
  intros Hrun HP.
  destruct (Z.le_gt_cases retry_count 0) as [Hnone | Hsome].
  { destruct (extract_transcript_empty_range w video_id retry_count
                delay_range Hnone) as (Heq & Hf & _).
    rewrite Heq in Hrun. injection Hrun as <- _. rewrite Hf. simpl.
    split; [constructor | lia]. }
  destruct (extract_transcript_iterations w video_id retry_count delay_range
              t result ltac:(lia) Hrun) as (k & t' & Hk & -> & Hretries & Hit).
  destruct (fetch_webshare_proxies_no_effect w) as (Hf0 & _ & _).
  rewrite Hretries, fetches_app, Hf0,
    (iterations_fetches _ _ _ _ _ _ _ _ Hit). simpl app.
  destruct (attempts_fetches w video_id retry_count delay_range
              (available_proxies w) P (seqZ 0 (Z.of_nat (S k))) HP)
    as [Hall Hlen].
  rewrite length_seqZ in Hlen. split; [done |]. lia.
Qed.

(** X3: a run asks the proxy provider once, whatever the number of
    attempts and whatever happens to them: one GET on the list URL, with
    the key in the [Authorization] header, mode [backbone] and a page of
    25; without a key it sends no request at all. *)
Theorem extract_transcript_one_request w video_id retry_count delay_range
    t result :
  extract_transcript w video_id retry_count delay_range = (t, inr result) ->
  http_requests t =
    if String.eqb (WEBSHARE_API_KEY w) "" then []
    else [HttpGet WEBSHARE_API_URL
            [("Authorization", "Token " +:+ WEBSHARE_API_KEY w)]
            [("mode", VStr "backbone"); ("page_size", VInt 25)]].
Proof.
  intros Hrun.
  destruct (Z.le_gt_cases retry_count 0) as [Hnone | Hsome].
  { destruct (extract_transcript_empty_range w video_id retry_count
                delay_range Hnone) as (Heq & _ & _).
    rewrite Heq in Hrun. injection Hrun as <- _.
    apply fetch_webshare_proxies_requests. }
  destruct (extract_transcript_iterations w video_id retry_count delay_range
              t result ltac:(lia) Hrun) as (k & t' & _ & -> & _ & Hit).
  rewrite http_requests_app,
    (iterations_http_requests _ _ _ _ _ _ _ _ Hit), app_nil_r.
  apply fetch_webshare_proxies_requests.
Qed.

(** X4: a run fetches the transcript at most [retry_count] times, each
    time for the video asked for and with the languages en, en-US, en-GB
    in this order. *)
Theorem extract_transcript_fetches_bounded w video_id retry_count delay_range
    t result :
  extract_transcript w video_id retry_count delay_range = (t, inr result) ->
  Z.of_nat (length (fetches t)) <= Z.max 0 retry_count /\
  Forall (fun e => exists api, e = Fetch api video_id ["en"; "en-US"; "en-GB"])
         (fetches t).
Proof.
  intros Hrun.
  destruct (run_fetches w video_id retry_count delay_range t result
              (fun e => exists api,
                          e = Fetch api video_id ["en"; "en-US"; "en-GB"])
              Hrun) as (Hall & Hlen & _); [| done].
  intros attempt api _. by exists api.
Qed.

(** X5: with a [retry_count] of zero or less nothing is tried: after the
    proxy fetch the run neither fetches nor sleeps, and it returns the
    failure MAX_RETRIES_EXCEEDED that names [retry_count]. *)
Theorem extract_transcript_nothing_to_try w video_id retry_count delay_range :
  retry_count <= 0 ->
  extract_transcript w video_id retry_count delay_range =
    (fst (fetch_webshare_proxies w),
     inr (failure_result
            ("All " +:+ pretty retry_count +:+ " attempts failed")
            "MAX_RETRIES_EXCEEDED")) /\
  fetches (fst (fetch_webshare_proxies w)) = [] /\
  sleeps (fst (fetch_webshare_proxies w)) = [].
Proof.
  intros Hcount.
  destruct (extract_transcript_empty_range w video_id retry_count delay_range
              Hcount) as (Hrun & Hfetches & Hsleeps).
  by rewrite Hrun, Hfetches, Hsleeps.
Qed.

(** X6: on success [attempt] is the number of attempts made, one more than
    the retries the run announced; the run ended on the fetch that
    succeeded, at that attempt, after at most one fetch per earlier
    attempt, and every earlier attempt had failed with an error of a
    retryable class. *)
Theorem success_attempt_counts_retries w video_id retry_count delay_range
    t result :
  extract_transcript w video_id retry_count delay_range = (t, inr result) ->
  result !! "success" = Some (VBool true) ->
  exists earlier api fetched,
    result !! "attempt" = Some (VInt (Z.of_nat (retries t) + 1)) /\
    t = earlier ++ [Fetch api video_id languages] /\
    fetch_outcome w video_id (Z.of_nat (retries t)) = inr fetched /\
    (1 <= length (fetches t) <= S (retries t))%nat /\
    (forall j, 0 <= j < Z.of_nat (retries t) ->
       exists error_msg,
         try_outcome w video_id retry_count delay_range j = inl error_msg /\
         classify w error_msg <> NoTranscript).
Proof.
  intros Hrun Hs.
  destruct (Z.le_gt_cases retry_count 0) as [Hnone | Hsome].
  { destruct (extract_transcript_empty_range w video_id retry_count
                delay_range Hnone) as [Heq _].
    rewrite Heq in Hrun. by injection Hrun as _ <-. }
  destruct (run_fetches w video_id retry_count delay_range t result
              (fun _ => True) Hrun ltac:(done)) as (_ & _ & Hmost).
  destruct (extract_transcript_outcome w video_id retry_count delay_range
              t result ltac:(lia) Hrun)
    as (k & Hk & Hretries & Hearlier & Hresult).
  rewrite Hretries in *.
  destruct Hresult as [(earlier & api & fetched & Ht & _ & Hapi & Hfetch & ->)
                      | (msg & _ & Hclass)].
  - exists earlier, api, fetched. split_and!; try done.
    + unfold fetch_outcome, fetch_with. by rewrite Hapi.
    + rewrite Ht, fetches_app, length_app. simpl. lia.
  - by destruct (classify w msg); [destruct Hclass as [_ ->]
                                  | subst result
                                  | destruct Hclass as [_ ->]].
Qed.

(** X7: IP_BLOCKED and UNKNOWN tell of exhausted attempts: the run made
    all its [retry_count] attempts, every one of them failed, the error of
    the last one is of the rate-limit class for IP_BLOCKED and of the
    unknown class for UNKNOWN, and [error] names [retry_count] and ends
    with the message of that last error. *)
Theorem exhausted_after_retry_count_attempts w video_id retry_count
    delay_range t result errorType :
  extract_transcript w video_id retry_count delay_range = (t, inr result) ->
  result !! "errorType" = Some (VStr errorType) ->
  errorType = "IP_BLOCKED" \/ errorType = "UNKNOWN" ->
  1 <= retry_count /\
  Z.of_nat (retries t) = retry_count - 1 /\
  (forall j, 0 <= j < retry_count ->
     exists error_msg,
       try_outcome w video_id retry_count delay_range j = inl error_msg) /\
  exists last_msg,
    try_outcome w video_id retry_count delay_range (retry_count - 1)
      = inl last_msg /\
    classify w last_msg
      = (if String.eqb errorType "IP_BLOCKED" then RateLimit
         else UnknownError) /\
    result !! "error"
      = Some (VStr (exhausted_error errorType retry_count last_msg)).
Proof.
  intros Hrun Hty Hexhausted.
  destruct (Z.le_gt_cases retry_count 0) as [Hnone | Hsome].
  { destruct (extract_transcript_empty_range w video_id retry_count
                delay_range Hnone) as [Heq _].
    rewrite Heq in Hrun. injection Hrun as _ <-.
    rewrite failure_result_error_type in Hty.
    destruct Hexhausted as [-> | ->]; discriminate. }
  destruct (extract_transcript_outcome w video_id retry_count delay_range
              t result ltac:(lia) Hrun)
    as (k & Hk & Hretries & Hearlier & Hresult).
  rewrite Hretries. split; [lia |].
  destruct Hresult as [(earlier & api & fetched & _ & _ & _ & _ & ->)
                      | (msg & Htry & Hclass)].
  { discriminate Hty. }
  destruct (classify w msg) eqn:Hmsg.
  - destruct Hclass as [Hlast ->].
    rewrite failure_result_error_type in Hty. injection Hty as <-.
    split; [lia |]. split.
    + intros j Hj. destruct (decide (j = Z.of_nat k)) as [-> | Hne]; [eauto |].
      destruct (Hearlier j ltac:(lia)) as (m & Hm & _). eauto.
    + exists msg. rewrite <- Hlast. by split_and!.
  - subst result. rewrite failure_result_error_type in Hty.
    injection Hty as <-. destruct Hexhausted; discriminate.
  - destruct Hclass as [Hlast ->].
    rewrite failure_result_error_type in Hty. injection Hty as <-.
    split; [lia |]. split.
    + intros j Hj. destruct (decide (j = Z.of_nat k)) as [-> | Hne]; [eauto |].
      destruct (Hearlier j ltac:(lia)) as (m & Hm & _). eauto.
    + exists msg. rewrite <- Hlast. by split_and!.
Qed.

(** X8: NO_TRANSCRIPT comes from the last attempt the run made: that
    attempt failed with an error of the no-transcript class, [error] is
    "No transcript available: " followed by its message, and the attempts
    before it had failed with errors of the other two classes. *)
Theorem no_transcript_from_last_attempt w video_id retry_count delay_range
    t result :
  extract_transcript w video_id retry_count delay_range = (t, inr result) ->
  result !! "errorType" = Some (VStr "NO_TRANSCRIPT") ->
  exists error_msg,
    Z.of_nat (retries t) < retry_count /\
    try_outcome w video_id retry_count delay_range (Z.of_nat (retries t))
      = inl error_msg /\
    classify w error_msg = NoTranscript /\
    result !! "error"
      = Some (VStr ("No transcript available: " +:+ error_msg)) /\
    (forall j, 0 <= j < Z.of_nat (retries t) ->
       exists earlier_msg,
         try_outcome w video_id retry_count delay_range j = inl earlier_msg /\
         classify w earlier_msg <> NoTranscript).
Proof.
  intros Hrun Hty.
  destruct (Z.le_gt_cases retry_count 0) as [Hnone | Hsome].
  { destruct (extract_transcript_empty_range w video_id retry_count
                delay_range Hnone) as [Heq _].
    rewrite Heq in Hrun. injection Hrun as _ <-. discriminate Hty. }
  destruct (extract_transcript_outcome w video_id retry_count delay_range
              t result ltac:(lia) Hrun)
    as (k & Hk & Hretries & Hearlier & Hresult).
  rewrite Hretries.
  destruct Hresult as [(earlier & api & fetched & _ & _ & _ & _ & ->)
                      | (msg & Htry & Hclass)].
  { discriminate Hty. }
  destruct (classify w msg) eqn:Hmsg.
  - destruct Hclass as [_ ->]. discriminate Hty.
  - subst result. exists msg. by split_and!.
  - destruct Hclass as [_ ->]. discriminate Hty.
Qed.

(** X9: a run sleeps only around its retries: once in the [except] clause
    for every retry it announces, and at most once more in the delay of
    the attempt that follows; twice for every retry when the delays come
    back. *)
Theorem sleeps_per_retry w video_id retry_count delay_range t result :
  extract_transcript w video_id retry_count delay_range = (t, inr result) ->
  (retries t <= length (sleeps t) <= 2 * retries t)%nat /\
  ((forall j, 1 <= j <= Z.of_nat (retries t) ->
      delay_outcome w retry_count delay_range j = inr tt) ->
   length (sleeps t) = (2 * retries t)%nat).
Proof.
  intros Hrun.
  destruct (Z.le_gt_cases retry_count 0) as [Hnone | Hsome].
  { destruct (extract_transcript_empty_range w video_id retry_count
                delay_range Hnone) as (Heq & _ & Hs).
    rewrite Heq in Hrun. injection Hrun as <- _.
    rewrite Hs, fetch_webshare_proxies_no_retry. simpl. split; [lia | done]. }
  destruct (extract_transcript_iterations w video_id retry_count delay_range
              t result ltac:(lia) Hrun) as (k & t' & Hk & -> & Hretries & Hit).
  destruct (fetch_webshare_proxies_no_effect w) as (_ & Hs0 & _).
  rewrite Hretries, sleeps_app, Hs0. simpl app. split.
  - pose proof (iterations_sleeps w video_id retry_count delay_range 0 k _ _
                  ltac:(lia) Hit) as Hs.
    change (0 <? 0) with false in Hs. cbv iota in Hs. lia.
  - intros Hdelay.
    rewrite (iterations_sleeps_exact w video_id retry_count delay_range 0 k
               _ _ ltac:(lia) Hit).
    + change (0 <? 0) with false. cbv iota. lia.
    + intros j Hj. destruct (decide (j = 0)) as [-> | Hne].
      * unfold delay_outcome.
        by rewrite (wait_before_retry_first w retry_count delay_range 0).
      * apply Hdelay. lia.
Qed.

Lemma backoff_total_at_most w video_id retry_count delay_range t result :
  extract_transcript w video_id retry_count delay_range = (t, inr result) ->
  0 <= total (backoff_waits t) <= 30 * (2 ^ (Z.max 1 retry_count - 1) - 1).
Proof.
  intros Hrun.
  destruct (Z.le_gt_cases retry_count 0) as [Hnone | Hsome].
  { destruct (extract_transcript_empty_range w video_id retry_count
                delay_range Hnone) as (Heq & _ & _).
    rewrite Heq in Hrun. injection Hrun as <- _.
    destruct (fetch_webshare_proxies_no_effect w) as (_ & _ & ->).
    rewrite Z.max_l by lia. simpl. lia. }
  destruct (extract_transcript_iterations w video_id retry_count delay_range
              t result ltac:(lia) Hrun) as (k & t' & Hk & -> & _ & Hit).
  destruct (fetch_webshare_proxies_no_effect w) as (_ & _ & Hb0).
  rewrite backoff_waits_app, Hb0. simpl.
  pose proof (iterations_backoff_total w video_id retry_count delay_range
                0 k _ _ ltac:(lia) Hit) as [Hlow Hb].
  rewrite !Z.max_r in * by lia. simpl in Hb. lia.
Qed.

(** X10: the whole seconds a run sleeps on rate limits add up to at most
    30 * (2^(retry_count - 1) - 1): 90 seconds for three attempts, none
    for a single attempt. *)
Theorem backoff_total_bounded w video_id retry_count delay_range t result :
  extract_transcript w video_id retry_count delay_range = (t, inr result) ->
  0 <= total (backoff_waits t) <= 30 * (2 ^ (Z.max 1 retry_count - 1) - 1).
Proof.
  intros Hrun.
  pose proof (backoff_total_at_most w video_id retry_count delay_range
                t result Hrun) as [Hlow Hhigh].
  split; [exact Hlow | exact Hhigh].
Qed.

(** ** The proxy of an attempt *)

(** The proxy of an attempt is drawn from the list; the client gets the
    configuration built from its user name and password, or none when the
    constructor raises. *)
Lemma selected_cases w proxies attempt :
  (proxies = [] /\ selected w proxies attempt = (None, None)) \/
  (exists data,
     data ∈ proxies /\
     ((exists e,
         WebshareProxyConfig_init w (username data) (password data) = inl e /\
         selected w proxies attempt = (None, Some data)) \/
      (exists cfg,
         WebshareProxyConfig_init w (username data) (password data)
           = inr cfg /\
         selected w proxies attempt = (Some cfg, Some data)))).
Proof.
  unfold selected, select_proxy, create_proxy_config.
  destruct proxies as [|first rest]; [by left |]. right.
  set (data := nth _ (first :: rest) first).
  exists data. split.
  { apply list_elem_of_In, nth_In, Nat.mod_upper_bound. done. }
  msimpl.
  destruct (WebshareProxyConfig_init w (username data) (password data))
    as [e | cfg]; msimpl; [left | right]; eauto.
Qed.

(** With one account behind every proxy of the list, the client does not
    depend on the draw. *)
Lemma api_used_same_account w proxies attempt attempt' :
  (forall p q, p ∈ proxies -> q ∈ proxies -> same_account p q) ->
  api_used w proxies attempt = api_used w proxies attempt'.
Proof.
  intros Hsame. unfold api_used.
  destruct (selected_cases w proxies attempt)
    as [[-> ->] | (data & Hin & Hdata)]; [done |].
  destruct (selected_cases w proxies attempt')
    as [[-> _] | (data' & Hin' & Hdata')]; [by apply elem_of_nil in Hin |].
  destruct (Hsame data data' Hin Hin') as [Hu Hp].
  rewrite Hu, Hp in Hdata.
  destruct Hdata as [(e & He & ->) | (cfg & Hcfg & ->)],
           Hdata' as [(e' & He' & ->) | (cfg' & Hcfg' & ->)];
    simpl; congruence.
Qed.

(** X11: on success [proxy_used] tells what the last fetch went through:
    it is "none" exactly as far as the client of that fetch had no proxy
    configuration (no proxy on offer, or the configuration could not be
    built); otherwise it is address:port of a proxy of the fetched list,
    and the client was configured with that proxy's user name and
    password. *)
Theorem proxy_used_names_the_proxy w video_id retry_count delay_range
    t result :
  extract_transcript w video_id retry_count delay_range = (t, inr result) ->
  result !! "success" = Some (VBool true) ->
  exists earlier api,
    t = earlier ++ [Fetch api video_id languages] /\
    ((proxy_config api = None /\
      result !! "proxy_used" = Some (VStr "none")) \/
     (exists data cfg,
        data ∈ available_proxies w /\
        WebshareProxyConfig_init w (username data) (password data)
          = inr cfg /\
        proxy_config api = Some cfg /\
        result !! "proxy_used"
          = Some (VStr (format_value w (proxy_address data) +:+ ":" +:+
                        format_value w (port data))))).
Proof.
  intros Hrun Hs.
  destruct (Z.le_gt_cases retry_count 0) as [Hnone | Hsome].
  { destruct (extract_transcript_empty_range w video_id retry_count
                delay_range Hnone) as [Heq _].
    rewrite Heq in Hrun. by injection Hrun as _ <-. }
  destruct (extract_transcript_outcome w video_id retry_count delay_range
              t result ltac:(lia) Hrun)
    as (k & _ & _ & _ & Hresult).
  destruct Hresult as [(earlier & api & fetched & -> & _ & Hapi & _ & ->)
                      | (msg & _ & Hclass)].
  2: { by destruct (classify w msg); [destruct Hclass as [_ ->]
                                     | subst result
                                     | destruct Hclass as [_ ->]]. }
  exists earlier, api. split; [reflexivity |].
  unfold api_used in Hapi.
  apply create_api_instance_proxy_config in Hapi. rewrite Hapi.
  unfold proxy_used_at.
  destruct (selected_cases w (available_proxies w) (Z.of_nat k))
    as [[_ ->] | (data & Hin & [(e & He & ->) | (cfg & Hcfg & ->)])].
  - by left.
  - by left.
  - right. exists data, cfg. by split_and!.
Qed.

Lemma replicate_same {A} (x : A) (l : list A) :
  Forall (fun y => y = x) l -> l = replicate (length l) x.
Proof. induction 1 as [|y l -> _ IH]; simpl; [done | by f_equal]. Qed.

(** X12: when all proxies of the list share one user name and password,
    every fetch of a run goes through one and the same client, whichever
    proxy is drawn: the address and the port of the proxy drawn are not
    part of the client's configuration. *)
Theorem same_account_same_client w video_id retry_count delay_range t result :
  extract_transcript w video_id retry_count delay_range = (t, inr result) ->
  (forall p q, p ∈ available_proxies w -> q ∈ available_proxies w ->
               same_account p q) ->
  exists api,
    fetches t = replicate (length (fetches t)) (Fetch api video_id languages).
Proof.
  intros Hrun Hsame.
  set (api0 := match api_used w (available_proxies w) 0 with
               | inr api => api
               | inl _ => {| http_client := None; proxy_config := None |}
               end).
  exists api0. apply replicate_same.
  apply (run_fetches w video_id retry_count delay_range t result
           (fun e => e = Fetch api0 video_id languages) Hrun).
  intros attempt api Hapi. subst api0.
  rewrite (api_used_same_account w _ attempt 0 Hsame) in Hapi.
  by rewrite Hapi.
Qed.

(** ** The text of the transcript *)

Lemma join_contains sep part parts :
  part ∈ parts -> Str.substring_of part (Str.join sep parts).
Proof.
  unfold Str.substring_of.
  induction parts as [|first rest IH]; intros Hin.
  { by apply elem_of_nil in Hin. }
  apply elem_of_cons in Hin as [-> | Hin].
  - destruct rest as [|second rest].
    + exists "", "". rewrite join_singleton.
      rewrite StrFacts.append_nil. clear. induction first as [|c s IHs];
        [done | by rewrite StrFacts.append_cons, <- IHs].
    + exists "", (sep +:+ Str.join sep (second :: rest)).
      by rewrite join_cons, StrFacts.append_nil.
  - destruct rest as [|second rest]; [by apply elem_of_nil in Hin |].
    destruct (IH Hin) as (before & after & Heq).
    exists (first +:+ sep +:+ before), after.
    rewrite join_cons, Heq. clear.
    induction first as [|c s IHs].
    + rewrite !StrFacts.append_nil. clear.
      induction sep as [|c s IHs];
        [done | by rewrite !StrFacts.append_cons, IHs].
    + by rewrite !StrFacts.append_cons, IHs.
Qed.

(** X13: the text of every segment returned occurs in [fullText]. *)
Theorem full_text_contains_every_segment w video_id retry_count delay_range
    t result segments full_text :
  extract_transcript w video_id retry_count delay_range = (t, inr result) ->
  result !! "success" = Some (VBool true) ->
  result !! "segments" = Some (VList segments) ->
  result !! "fullText" = Some (VStr full_text) ->
  forall segment segment_text,
    VDict segment ∈ segments ->
    segment !! "text" = Some (VStr segment_text) ->
    Str.substring_of segment_text full_text.
Proof.
  intros Hrun Hs Hsegments Hfull segment segment_text Hin Htext.
  apply extract_transcript_result in Hrun.
  destruct Hrun as [attempt r _ Hret |]; [| done].
  apply step_return_success in Hret as (fetched & _ & ->); [| done].
  change (Some (VList (map segment_of fetched)) = Some (VList segments))
    in Hsegments.
  change (Some (VStr (Str.join " " (map snippet_text fetched)))
          = Some (VStr full_text)) in Hfull.
  injection Hsegments as <-. injection Hfull as <-.
  apply list_elem_of_fmap in Hin as (snippet & Heq & Hsnippet).
  injection Heq as ->.
  change (Some (VStr (snippet_text snippet)) = Some (VStr segment_text))
    in Htext.
  injection Htext as <-.
  apply join_contains, list_elem_of_fmap. eauto.
Qed.

(** X14: a transcript without any snippet is a success all the same: when
    the first fetch returns nothing, the run reports success at attempt 1,
    after that one fetch, with [segments], [fullText] and [segmentCount]
    empty, empty and 0, the values a failure carries. *)
Theorem empty_transcript_is_success w video_id retry_count delay_range
    t result :
  extract_transcript w video_id retry_count delay_range = (t, inr result) ->
  1 <= retry_count ->
  fetch_outcome w video_id 0 = inr [] ->
  result !! "success" = Some (VBool true) /\
  result !! "segments" = Some (VList []) /\
  result !! "fullText" = Some (VStr "") /\
  result !! "segmentCount" = Some (VInt 0) /\
  result !! "attempt" = Some (VInt 1) /\
  length (fetches t) = 1%nat.
Proof.
  intros Hrun Hcount Hempty.
  destruct (run_fetches w video_id retry_count delay_range t result
              (fun _ => True) Hrun ltac:(done)) as (_ & _ & Hmost).
  destruct (extract_transcript_outcome w video_id retry_count delay_range
              t result Hcount Hrun)
    as (k & _ & Hretries & Hearlier & Hresult).
  assert (try_outcome w video_id retry_count delay_range 0
          = inr (success_result [] 1 (proxy_used_at w 0))) as Hfirst.
  { unfold try_outcome. rewrite attempt_try_outcome.
    - fold (fetch_outcome w video_id 0). by rewrite Hempty.
    - unfold delay_outcome.
      by rewrite (wait_before_retry_first w retry_count delay_range 0). }
  destruct k as [|k].
  2: { destruct (Hearlier 0 ltac:(lia)) as (msg & Hmsg & _). congruence. }
  change (Z.of_nat 0) with 0 in Hresult.
  destruct Hresult as [(earlier & api & fetched & Ht & _ & Hapi & Hfetch & ->)
                      | (msg & Htry & _)]; [| congruence].
  unfold fetch_outcome, fetch_with in Hempty. rewrite Hapi, Hfetch in Hempty.
  injection Hempty as ->.
  split_and!; try done.
  rewrite Hretries in Hmost.
  rewrite Ht, fetches_app, length_app in Hmost |- *. simpl in *. lia.
Qed.

(** ** When the run does not return *)

(** A loop that raises raises from the sleep of the [except] clause of
    one of its iterations. *)
Lemma attempt_loop_raises w video_id retry_count delay_range attempts :
  forall t message,
  attempt_loop w video_id retry_count delay_range (available_proxies w)
               attempts = (t, inl message) ->
  exists attempt error_msg seconds,
    attempt ∈ attempts /\
    try_outcome w video_id retry_count delay_range attempt = inl error_msg /\
    attempt < retry_count - 1 /\
    classify w error_msg <> NoTranscript /\
    time_sleep w seconds = Some message /\
    (classify w error_msg = RateLimit -> seconds = VInt (2 ^ attempt * 30)).
Proof.
  induction attempts as [|attempt rest IH]; intros t message; [done |].
  destruct (attempt_step w video_id retry_count delay_range
              (available_proxies w) attempt)
    as [t0 [message0 | [result0 |]]] eqn:Hstep.
  - rewrite (attempt_loop_raise _ _ _ _ _ _ _ _ Hstep). intros [= <- <-].
    apply attempt_step_raise in Hstep
      as (msg & seconds & Htry & Hlt & Hclass & Hsleep & Hseconds).
    exists attempt, msg, seconds. split_and!; try done.
    apply elem_of_cons. by left.
  - by rewrite (attempt_loop_return _ _ _ _ _ _ _ _ Hstep).
  - rewrite (attempt_loop_continue _ _ _ _ _ _ _ Hstep).
    destruct (attempt_loop _ _ _ _ _ rest) as [t1 r1] eqn:Hrest. simpl.
    intros [= _ ->].
    destruct (IH t1 message eq_refl)
      as (a & msg & seconds & Hin & Hrest').
    exists a, msg, seconds. split; [| done].
    apply elem_of_cons. by right.
Qed.

(** X17: the dictionary that follows the loop is returned exactly when
    there is no attempt to make: with a [retry_count] of one or more a run
    that returns returns from within the loop, and the iteration of the
    last attempt returns in every world. *)
Theorem fallback_only_without_attempts w video_id retry_count delay_range
    t result :
  extract_transcript w video_id retry_count delay_range = (t, inr result) ->
  (result !! "errorType" = Some (VStr "MAX_RETRIES_EXCEEDED")
   <-> retry_count <= 0) /\
  (1 <= retry_count ->
   exists t' result',
     attempt_step w video_id retry_count delay_range (available_proxies w)
                  (retry_count - 1) = (t', inr (Return result'))).
Proof.
  intros Hrun. split.
  - split.
    + intros Hty. destruct (Z.le_gt_cases retry_count 0); [done |].
      by destruct (returned_within_loop w video_id retry_count delay_range
                     t result ltac:(lia) Hrun).
    + intros Hnone.
      destruct (extract_transcript_empty_range w video_id retry_count
                  delay_range Hnone) as [Heq _].
      rewrite Heq in Hrun. by injection Hrun as _ <-.
  - intros _. apply attempt_step_last. lia.
Qed.

(** X18: an exception leaves [extract_transcript] only from a
    [time.sleep] of the [except] clause: at an attempt that is not the
    last and that failed with a retryable error, [time.sleep] raised that
    exception; on a rate limit it was asked for 30 * 2^attempt seconds. *)
Theorem exception_leaves_from_sleep w video_id retry_count delay_range t e :
  extract_transcript w video_id retry_count delay_range = (t, inl e) ->
  exists attempt error_msg seconds message,
    e = LibraryError message /\
    0 <= attempt < retry_count - 1 /\
    try_outcome w video_id retry_count delay_range attempt = inl error_msg /\
    classify w error_msg <> NoTranscript /\
    time_sleep w seconds = Some message /\
    (classify w error_msg = RateLimit -> seconds = VInt (2 ^ attempt * 30)).
Proof.
  rewrite extract_transcript_unfold.
  destruct (attempt_loop w video_id retry_count delay_range
              (available_proxies w) (range retry_count))
    as [t' [message | result]] eqn:Hloop; [| done].
  simpl. intros [= _ <-].
  apply attempt_loop_raises in Hloop
    as (attempt & msg & seconds & Hin & Htry & Hlt & Hclass & Hsleep & Hsec).
  exists attempt, msg, seconds, message.
  unfold range in Hin. apply elem_of_seqZ in Hin.
  split_and!; try done; lia.
Qed.

(** X19: when [time.sleep] does not raise on the times the [except]
    clause asks for, the run returns a result. *)
Theorem extract_transcript_returns w video_id retry_count delay_range :
  (forall attempt, 0 <= attempt < retry_count - 1 ->
     time_sleep w (VInt (2 ^ attempt * 30)) = None /\
     time_sleep w (VFloat (random_uniform w (2 * attempt + 1)
                                          (VInt 2) (VInt 5))) = None) ->
  exists t result,
    extract_transcript w video_id retry_count delay_range = (t, inr result).
Proof.
  intros Hsleep.
  destruct (extract_transcript w video_id retry_count delay_range)
    as [t [e | result]] eqn:Hrun; [| eauto].
  exfalso. rewrite extract_transcript_unfold in Hrun.
  destruct (attempt_loop w video_id retry_count delay_range
              (available_proxies w) (range retry_count))
    as [t' [message | result]] eqn:Hloop; [| done].
  clear Hrun. revert t' Hloop. unfold range.
  assert (forall a, a ∈ seqZ 0 retry_count -> 0 <= a) as Hpos.
  { intros a Ha. apply elem_of_seqZ in Ha. lia. }
  revert Hpos. generalize (seqZ 0 retry_count). intros attempts.
  induction attempts as [|attempt rest IH]; intros Hpos t'; [done |].
  pose proof (attempt_step_cases w video_id retry_count delay_range
                (available_proxies w) attempt) as Hstep.
  destruct (attempt_try w video_id retry_count delay_range
              (available_proxies w) attempt) as [t0 [msg | result0]].
  - rewrite handle_error_cases in Hstep.
    assert (0 <= attempt) as Hattempt
      by (apply Hpos, elem_of_cons; by left).
    destruct (classify w msg);
      destruct (Z.ltb_spec attempt (retry_count - 1)) as [Hlt | Hge];
      try (destruct (Hsleep attempt ltac:(lia)) as [Hint Hfloat];
           rewrite ?Hint, ?Hfloat in Hstep);
      simpl in Hstep;
      first [ rewrite (attempt_loop_return _ _ _ _ _ _ _ _ Hstep); done
            | rewrite (attempt_loop_continue _ _ _ _ _ _ _ Hstep);
              destruct (attempt_loop _ _ _ _ _ rest) as [t1 r1] eqn:Hrest;
              simpl; intros [= _ ->];
              apply (IH ltac:(intros a Ha; apply Hpos, elem_of_cons; by right) t1);
              reflexivity ].
  - by rewrite (attempt_loop_return _ _ _ _ _ _ _ _ Hstep).
Qed.

(** ** The command line *)

(** Loading the module only prints. *)
Lemma load_module_trace w :
  fetches (load_module w) = [] /\ sleeps (load_module w) = [] /\
  http_requests (load_module w) = [] /\ backoff_waits (load_module w) = [].
Proof. unfold load_module. by destruct (String.eqb _ _). Qed.

(** X15: when the process exits, it has printed exactly one document on
    standard output, a dictionary whose [success] is a boolean, and its
    status is 1 exactly when the number of arguments is wrong, and 0
    otherwise, also when the extraction failed.  With a wrong number of
    arguments nothing is requested, fetched or slept: the only line on
    standard error is the warning about the API key when it is not set,
    and the document has only [success], false, and [error]: no
    [errorType], no [segments]. *)
Theorem script_prints_one_document w argv t stdout code :
  script w argv = (t, Exited stdout code) ->
  exists document (b : bool),
    stdout = [VDict document] /\
    document !! "success" = Some (VBool b) /\
    code = (if (length argv =? 2)%nat then 0 else 1) /\
    (length argv <> 2%nat ->
     t = load_module w /\ b = false /\
     is_Some (document !! "error") /\
     document !! "errorType" = None /\
     document !! "segments" = None /\
     document !! "fullText" = None /\
     document !! "segmentCount" = None).
Proof.
  unfold script, main.
  destruct (import_error w); [done |].
  destruct (Nat.eqb_spec (length argv) 2) as [Hlen | Hlen]; simpl negb;
    cbv iota.
  - destruct (extract_transcript w (nth 1 argv "") default_retry_count
                default_delay_range) as [t' [e | result]] eqn:Hrun; [done |].
    intros [= <- <- <-].
    pose proof (extract_transcript_result _ _ _ _ _ _ Hrun) as Hresult.
    apply extraction_result_success_flag in Hresult as [b Hb].
    exists result, b. by split_and!.
  - intros [= <- <- <-]. exists usage_error, false.
    split_and!; try done. intros _. rewrite app_nil_r.
    split_and!; first [done | by eexists].
Qed.

(** X16: called with one argument, the script, when it exits, has
    extracted the transcript of that video with three attempts and a delay
    between 1 and 3 seconds before a retry, printed the result and ended
    with status 0; it has fetched at most three times and slept at most 90
    whole seconds on rate limits. *)
Theorem script_default_run w argv t stdout code :
  length argv = 2%nat ->
  script w argv = (t, Exited stdout code) ->
  exists t' result,
    t = load_module w ++ t' /\
    extract_transcript w (nth 1 argv "") 3 (VInt 1, VInt 3)
      = (t', inr result) /\
    stdout = [VDict result] /\
    code = 0 /\
    (length (fetches t) <= 3)%nat /\
    total (backoff_waits t) <= 90.
Proof.
  intros Hlen. unfold script, main. rewrite Hlen. simpl negb. cbv iota.
  destruct (import_error w); [done |].
  destruct (extract_transcript w (nth 1 argv "") default_retry_count
              default_delay_range) as [t' [e | result]] eqn:Hrun; [done |].
  intros [= <- <- <-]. exists t', result.
  split; [done |]. split; [exact Hrun |]. split; [done |]. split; [done |].
  destruct (run_fetches _ _ _ _ _ _ (fun _ => True) Hrun ltac:(done))
    as (_ & Hfetches & _).
  pose proof (backoff_total_at_most _ _ _ _ _ _ Hrun) as [_ Hbackoff].
  destruct (load_module_trace w) as (Hf & _ & _ & Hb).
  rewrite fetches_app, backoff_waits_app, Hf, Hb. simpl app.
  unfold default_retry_count in *. split; [lia |].
  change (30 * (2 ^ (Z.max 1 3 - 1) - 1)) with 90 in Hbackoff. done.
Qed.


(** ** The further properties at work *)

Lemma fetch_webshare_proxies_credentials_witness :
  exists t proxies,
    fetch_webshare_proxies Examples.two_proxies = (t, inr proxies) /\
    Forall2 entry_credential MoreExamples.two_entries proxies.
Proof.
  apply (fetch_webshare_proxies_credentials Examples.two_proxies
           MoreExamples.two_proxies_response
           MoreExamples.two_proxies_payload MoreExamples.two_entries).
  - discriminate.
  - reflexivity.
  - reflexivity.
  - reflexivity.
  - reflexivity.
  - repeat constructor;
      (eexists; split; [reflexivity |]; repeat split; eexists; reflexivity).
Defined.

Lemma fetch_webshare_proxies_sound_witness :
  WEBSHARE_API_KEY Examples.two_proxies <> "" /\
  exists response d items,
    proxy_list_request Examples.two_proxies = inr response /\
    status_code response = 200 /\
    json response = inr (VDict d) /\
    d !! "results" = Some (VList items) /\
    Forall2 entry_credential items
      [MoreExamples.first_proxy; MoreExamples.second_proxy].
Proof.
  apply (fetch_webshare_proxies_sound Examples.two_proxies
           (fst (fetch_webshare_proxies Examples.two_proxies))).
  - reflexivity.
  - discriminate.
Defined.

Lemma extract_transcript_one_request_witness :
  http_requests
    (fst (extract_transcript Examples.two_proxies "abc123" 3
            default_delay_range))
  = if String.eqb (WEBSHARE_API_KEY Examples.two_proxies) "" then []
    else [HttpGet WEBSHARE_API_URL
            [("Authorization",
              "Token " +:+ WEBSHARE_API_KEY Examples.two_proxies)]
            [("mode", VStr "backbone"); ("page_size", VInt 25)]].
Proof.
  apply (extract_transcript_one_request Examples.two_proxies "abc123" 3
           default_delay_range _
           (result_of (extract_transcript Examples.two_proxies "abc123" 3
                         default_delay_range))).
  reflexivity.
Defined.

Lemma extract_transcript_fetches_bounded_witness :
  Z.of_nat
    (length (fetches (fst (MoreExamples.run_of Examples.always_blocked))))
  <= Z.max 0 3 /\
  Forall (fun e => exists api, e = Fetch api "abc123" ["en"; "en-US"; "en-GB"])
         (fetches (fst (MoreExamples.run_of Examples.always_blocked))).
Proof.
  apply (extract_transcript_fetches_bounded Examples.always_blocked "abc123" 3
           default_delay_range _
           (result_of (MoreExamples.run_of Examples.always_blocked))).
  reflexivity.
Defined.

Lemma extract_transcript_nothing_to_try_witness :
  extract_transcript Examples.throttled_twice "abc123" 0 default_delay_range =
    (fst (fetch_webshare_proxies Examples.throttled_twice),
     inr (failure_result ("All " +:+ pretty 0 +:+ " attempts failed")
                         "MAX_RETRIES_EXCEEDED")) /\
  fetches (fst (fetch_webshare_proxies Examples.throttled_twice)) = [] /\
  sleeps (fst (fetch_webshare_proxies Examples.throttled_twice)) = [].
Proof.
  apply (extract_transcript_nothing_to_try Examples.throttled_twice "abc123" 0
           default_delay_range).
  lia.
Defined.

Lemma success_attempt_counts_retries_witness :
  exists earlier api fetched,
    result_of (MoreExamples.run_of Examples.throttled_twice) !! "attempt"
      = Some (VInt
                (Z.of_nat
                   (retries (fst (MoreExamples.run_of
                                    Examples.throttled_twice))) + 1)) /\
    fst (MoreExamples.run_of Examples.throttled_twice)
      = earlier ++ [Fetch api "abc123" languages] /\
    fetch_outcome Examples.throttled_twice "abc123"
      (Z.of_nat (retries (fst (MoreExamples.run_of Examples.throttled_twice))))
      = inr fetched /\
    (1 <= length (fetches (fst (MoreExamples.run_of Examples.throttled_twice)))
     <= S (retries (fst (MoreExamples.run_of Examples.throttled_twice))))%nat /\
    (forall j,
       0 <= j < Z.of_nat (retries (fst (MoreExamples.run_of
                                          Examples.throttled_twice))) ->
       exists error_msg,
         try_outcome Examples.throttled_twice "abc123" 3 default_delay_range j
           = inl error_msg /\
         classify Examples.throttled_twice error_msg <> NoTranscript).
Proof.
  apply (success_attempt_counts_retries Examples.throttled_twice "abc123" 3
           default_delay_range _
           (result_of (MoreExamples.run_of Examples.throttled_twice))).
  - reflexivity.
  - reflexivity.
Defined.

Lemma exhausted_after_retry_count_attempts_witness :
  1 <= 3 /\
  Z.of_nat (retries (fst (MoreExamples.run_of MoreExamples.connection_reset)))
    = 3 - 1 /\
  (forall j, 0 <= j < 3 ->
     exists error_msg,
       try_outcome MoreExamples.connection_reset "abc123" 3
         default_delay_range j = inl error_msg) /\
  exists last_msg,
    try_outcome MoreExamples.connection_reset "abc123" 3 default_delay_range
      (3 - 1) = inl last_msg /\
    classify MoreExamples.connection_reset last_msg
      = (if String.eqb "UNKNOWN" "IP_BLOCKED" then RateLimit
         else UnknownError) /\
    result_of (MoreExamples.run_of MoreExamples.connection_reset) !! "error"
      = Some (VStr (exhausted_error "UNKNOWN" 3 last_msg)).
Proof.
  apply (exhausted_after_retry_count_attempts MoreExamples.connection_reset
           "abc123" 3 default_delay_range
           (fst (MoreExamples.run_of MoreExamples.connection_reset))
           (result_of (MoreExamples.run_of MoreExamples.connection_reset))
           "UNKNOWN").
  - reflexivity.
  - reflexivity.
  - by right.
Defined.

Lemma no_transcript_from_last_attempt_witness :
  exists error_msg,
    Z.of_nat (retries (fst (MoreExamples.run_of
                              MoreExamples.throttled_then_missing))) < 3 /\
    try_outcome MoreExamples.throttled_then_missing "abc123" 3
      default_delay_range
      (Z.of_nat (retries (fst (MoreExamples.run_of
                                 MoreExamples.throttled_then_missing))))
      = inl error_msg /\
    classify MoreExamples.throttled_then_missing error_msg = NoTranscript /\
    result_of (MoreExamples.run_of MoreExamples.throttled_then_missing)
      !! "error"
      = Some (VStr ("No transcript available: " +:+ error_msg)) /\
    (forall j,
       0 <= j < Z.of_nat (retries (fst (MoreExamples.run_of
                                          MoreExamples.throttled_then_missing)))
       ->
       exists earlier_msg,
         try_outcome MoreExamples.throttled_then_missing "abc123" 3
           default_delay_range j = inl earlier_msg /\
         classify MoreExamples.throttled_then_missing earlier_msg
           <> NoTranscript).
Proof.
  apply (no_transcript_from_last_attempt MoreExamples.throttled_then_missing
           "abc123" 3 default_delay_range
           (fst (MoreExamples.run_of MoreExamples.throttled_then_missing))
           (result_of (MoreExamples.run_of
                         MoreExamples.throttled_then_missing))).
  - reflexivity.
  - reflexivity.
Defined.

Lemma sleeps_per_retry_witness :
  (retries (fst (MoreExamples.run_of Examples.throttled_twice))
   <= length (sleeps (fst (MoreExamples.run_of Examples.throttled_twice)))
   <= 2 * retries (fst (MoreExamples.run_of Examples.throttled_twice)))%nat /\
  ((forall j,
      1 <= j <= Z.of_nat (retries (fst (MoreExamples.run_of
                                          Examples.throttled_twice))) ->
      delay_outcome Examples.throttled_twice 3 default_delay_range j
        = inr tt) ->
   length (sleeps (fst (MoreExamples.run_of Examples.throttled_twice)))
   = (2 * retries (fst (MoreExamples.run_of Examples.throttled_twice)))%nat).
Proof.
  apply (sleeps_per_retry Examples.throttled_twice "abc123" 3
           default_delay_range _
           (result_of (MoreExamples.run_of Examples.throttled_twice))).
  reflexivity.
Defined.

Lemma backoff_total_bounded_witness :
  0 <= total (backoff_waits
                (fst (extract_transcript Examples.always_blocked "abc123" 3
                        default_delay_range)))
    <= 30 * (2 ^ (Z.max 1 3 - 1) - 1).
Proof.
  apply (backoff_total_bounded Examples.always_blocked "abc123" 3
           default_delay_range _
           (result_of (extract_transcript Examples.always_blocked "abc123" 3
                         default_delay_range))).
  reflexivity.
Defined.

Lemma proxy_used_names_the_proxy_witness :
  exists earlier api,
    fst (extract_transcript Examples.two_proxies "abc123" 3
           default_delay_range)
      = earlier ++ [Fetch api "abc123" languages] /\
    ((proxy_config api = None /\
      result_of (extract_transcript Examples.two_proxies "abc123" 3
                   default_delay_range) !! "proxy_used"
        = Some (VStr "none")) \/
     (exists data cfg,
        data ∈ available_proxies Examples.two_proxies /\
        WebshareProxyConfig_init Examples.two_proxies
          (username data) (password data) = inr cfg /\
        proxy_config api = Some cfg /\
        result_of (extract_transcript Examples.two_proxies "abc123" 3
                     default_delay_range) !! "proxy_used"
          = Some (VStr (format_value Examples.two_proxies (proxy_address data)
                        +:+ ":" +:+
                        format_value Examples.two_proxies (port data))))).
Proof.
  apply (proxy_used_names_the_proxy Examples.two_proxies "abc123" 3
           default_delay_range).
  - reflexivity.
  - reflexivity.
Defined.

Lemma same_account_same_client_witness :
  exists api,
    fetches (fst (extract_transcript Examples.two_proxies "abc123" 3
                    default_delay_range))
    = replicate
        (length (fetches (fst (extract_transcript Examples.two_proxies
                                 "abc123" 3 default_delay_range))))
        (Fetch api "abc123" languages).
Proof.
  apply (same_account_same_client Examples.two_proxies "abc123" 3
           default_delay_range _
           (result_of (extract_transcript Examples.two_proxies "abc123" 3
                         default_delay_range))).
  - reflexivity.
  - change (available_proxies Examples.two_proxies)
      with [MoreExamples.first_proxy; MoreExamples.second_proxy].
    intros p q Hp Hq.
    apply elem_of_cons in Hp as [-> | Hp];
      [| apply elem_of_cons in Hp as [-> | Hp];
         [| by apply elem_of_nil in Hp]];
      (apply elem_of_cons in Hq as [-> | Hq];
       [| apply elem_of_cons in Hq as [-> | Hq];
          [| by apply elem_of_nil in Hq]]);
      split; reflexivity.
Defined.

Lemma full_text_contains_every_segment_witness :
  Str.substring_of "world" "Hello world".
Proof.
  apply (full_text_contains_every_segment Examples.throttled_twice "abc123" 3
           default_delay_range
           (fst (extract_transcript Examples.throttled_twice "abc123" 3
                   default_delay_range))
           (result_of (extract_transcript Examples.throttled_twice "abc123" 3
                         default_delay_range))
           (map segment_of Examples.hello_world) "Hello world")
    with (segment := {[ "text" := VStr "world"; "start" := VFloat 1.5%float;
                        "duration" := VFloat 0.75%float ]}).
  - reflexivity.
  - reflexivity.
  - reflexivity.
  - reflexivity.
  - right. left.
  - reflexivity.
Defined.

Lemma empty_transcript_is_success_witness :
  result_of (extract_transcript MoreExamples.empty_transcript "abc123" 3
               default_delay_range) !! "success" = Some (VBool true) /\
  result_of (extract_transcript MoreExamples.empty_transcript "abc123" 3
               default_delay_range) !! "segments" = Some (VList []) /\
  result_of (extract_transcript MoreExamples.empty_transcript "abc123" 3
               default_delay_range) !! "fullText" = Some (VStr "") /\
  result_of (extract_transcript MoreExamples.empty_transcript "abc123" 3
               default_delay_range) !! "segmentCount" = Some (VInt 0) /\
  result_of (extract_transcript MoreExamples.empty_transcript "abc123" 3
               default_delay_range) !! "attempt" = Some (VInt 1) /\
  length (fetches (fst (extract_transcript MoreExamples.empty_transcript
                          "abc123" 3 default_delay_range))) = 1%nat.
Proof.
  apply (empty_transcript_is_success MoreExamples.empty_transcript "abc123" 3
           default_delay_range).
  - reflexivity.
  - lia.
  - reflexivity.
Defined.

Lemma fallback_only_without_attempts_witness :
  (result_of (MoreExamples.run_of Examples.always_blocked) !! "errorType"
     = Some (VStr "MAX_RETRIES_EXCEEDED")
   <-> 3 <= 0) /\
  (1 <= 3 ->
   exists t' result',
     attempt_step Examples.always_blocked "abc123" 3 default_delay_range
       (available_proxies Examples.always_blocked) (3 - 1)
     = (t', inr (Return result'))).
Proof.
  apply (fallback_only_without_attempts Examples.always_blocked "abc123" 3
           default_delay_range
           (fst (MoreExamples.run_of Examples.always_blocked))).
  reflexivity.
Defined.

Lemma exception_leaves_from_sleep_witness :
  exists attempt error_msg seconds message,
    LibraryError "timestamp too large to convert to C _PyTime_t"
      = LibraryError message /\
    0 <= attempt < 31 - 1 /\
    try_outcome MoreExamples.throttled_at_thirtieth "abc123" 31
      default_delay_range attempt = inl error_msg /\
    classify MoreExamples.throttled_at_thirtieth error_msg <> NoTranscript /\
    time_sleep MoreExamples.throttled_at_thirtieth seconds = Some message /\
    (classify MoreExamples.throttled_at_thirtieth error_msg = RateLimit ->
     seconds = VInt (2 ^ attempt * 30)).
Proof.
  apply (exception_leaves_from_sleep MoreExamples.throttled_at_thirtieth
           "abc123" 31 default_delay_range
           (fst (extract_transcript MoreExamples.throttled_at_thirtieth
                   "abc123" 31 default_delay_range))).
  reflexivity.
Defined.

Lemma extract_transcript_returns_witness :
  exists t result,
    extract_transcript Examples.always_blocked "abc123" 3 default_delay_range
    = (t, inr result).
Proof.
  apply (extract_transcript_returns Examples.always_blocked "abc123" 3
           default_delay_range).
  intros attempt Hattempt.
  assert (attempt = 0 \/ attempt = 1) as [-> | ->] by lia;
    split; reflexivity.
Defined.

Lemma script_prints_one_document_witness :
  exists document (b : bool),
    [VDict usage_error] = [VDict document] /\
    document !! "success" = Some (VBool b) /\
    1 = (if (length ["extractTranscriptsPython.py"] =? 2)%nat then 0 else 1) /\
    (length ["extractTranscriptsPython.py"] <> 2%nat ->
     [Print LogKeyNotSet] = load_module Examples.throttled_twice /\
     b = false /\
     is_Some (document !! "error") /\
     document !! "errorType" = None /\
     document !! "segments" = None /\
     document !! "fullText" = None /\
     document !! "segmentCount" = None).
Proof.
  apply (script_prints_one_document Examples.throttled_twice
           ["extractTranscriptsPython.py"]).
  reflexivity.
Defined.

Lemma script_default_run_witness :
  exists t' result,
    fst (script Examples.throttled_twice
           ["extractTranscriptsPython.py"; "abc123"])
      = load_module Examples.throttled_twice ++ t' /\
    extract_transcript Examples.throttled_twice
      (nth 1 ["extractTranscriptsPython.py"; "abc123"] "") 3 (VInt 1, VInt 3)
      = (t', inr result) /\
    [VDict (result_of (MoreExamples.run_of Examples.throttled_twice))]
      = [VDict result] /\
    0 = 0 /\
    (length (fetches (fst (script Examples.throttled_twice
                             ["extractTranscriptsPython.py"; "abc123"])))
     <= 3)%nat /\
    total (backoff_waits
             (fst (script Examples.throttled_twice
                     ["extractTranscriptsPython.py"; "abc123"]))) <= 90.
Proof.
  apply (script_default_run Examples.throttled_twice
           ["extractTranscriptsPython.py"; "abc123"]).
  - reflexivity.
  - reflexivity.
Defined.

